(** * Keyword Trends API: cache, window translation, normalisation, batch

    A shallow embedding of the trend layer of [app.py]: the process-wide
    TTL cache ([CACHE], [cache_get], [cache_set]), the window translation
    [parse_since], and the four trend endpoints [api_trending],
    [api_interest], [api_related] and [api_batch_interest].

    Conventions of the model.
    - A Python [str] is a [string] whose characters are the code points
      U+0000..U+00FF; the character tables below ([isspace], [isdigit],
      [lower]) are those of Python on that range.
    - Python integers are [Z]. [int()] refuses a literal of more than
      [INT_MAX_STR_DIGITS] digits, as the interpreter does with its default
      setting (app.py does not change it); [str()] is applied to integers
      of at most two digits only, far below that limit.
    - A numeric cell of an interest frame is seen through what
      [series.astype(int)] makes of it: the integer it becomes, or the
      refusal of the cast ([number]).
    - A number of a related frame is a whole number and stands for its
      value, whether pandas holds it as an integer or as a float (in a
      column with a NaN it holds floats, and the fill of a missing cell
      is then the float zero): [VInt z] is the JSON number [z].
    - [time.time()] is a rational clock reading held in the world state.
    - The trend provider (pytrends) is an oracle indexed by the log of the
      requests made so far; every request is appended to that log. *)

From Stdlib Require Import ZArith NArith QArith Lia Lqa Ascii String List Bool.
From stdpp Require Import base option list gmap strings sorting.

#[local] Set Warnings "-register-all".

Local Open Scope string_scope.
Local Open Scope Z_scope.

(** ** Python strings *)

Module Py.

Definition code (c : ascii) : N := N_of_ascii c.

(** [str.isspace] on one character: the controls TAB..CR and FS..US, the
    space, NEL (U+0085) and the no-break space (U+00A0). *)
Definition isspace (c : ascii) : bool :=
  let n := code c in
  ((9 <=? n) && (n <=? 13) || (28 <=? n) && (n <=? 32)
   || (n =? 133) || (n =? 160))%N.

(** [str.isdigit] on one character: the decimal digits and the characters
    of numeric type Digit, which on this range are the superscripts
    U+00B2, U+00B3 and U+00B9. *)
Definition isdigit_char (c : ascii) : bool :=
  let n := code c in
  ((48 <=? n) && (n <=? 57) || (n =? 178) || (n =? 179) || (n =? 185))%N.

(** The value of a decimal digit; [None] for every other character, in
    particular for the superscript digits. *)
Definition decimal_value (c : ascii) : option Z :=
  let n := code c in
  if ((48 <=? n) && (n <=? 57))%N then Some (Z.of_N n - 48) else None.

Definition lower_char (c : ascii) : ascii :=
  let n := code c in
  if ((65 <=? n) && (n <=? 90)
      || (192 <=? n) && (n <=? 222) && negb (n =? 215))%N
  then ascii_of_N (n + 32) else c.

Fixpoint lower (s : string) : string :=
  match s with
  | EmptyString => EmptyString
  | String c r => String (lower_char c) (lower r)
  end.

Fixpoint lstrip (s : string) : string :=
  match s with
  | EmptyString => EmptyString
  | String c r => if isspace c then lstrip r else s
  end.

Fixpoint rstrip (s : string) : string :=
  match s with
  | EmptyString => EmptyString
  | String c r =>
      match rstrip r with
      | EmptyString => if isspace c then EmptyString else String c EmptyString
      | r' => String c r'
      end
  end.

Definition strip (s : string) : string := rstrip (lstrip s).

(** [s.endswith(suf)]: some tail of [s] is [suf]. *)
Fixpoint endswith (s suf : string) : bool :=
  String.eqb s suf
  || match s with
     | EmptyString => false
     | String _ r => endswith r suf
     end.

(** The slice [s[:-1]]. *)
Fixpoint init (s : string) : string :=
  match s with
  | EmptyString => EmptyString
  | String _ EmptyString => EmptyString
  | String c r => String c (init r)
  end.

Fixpoint all_chars (p : ascii -> bool) (s : string) : bool :=
  match s with
  | EmptyString => true
  | String c r => p c && all_chars p r
  end.

(** [s.isdigit()]: at least one character, and all of them digits. *)
Definition isdigit (s : string) : bool :=
  match s with
  | EmptyString => false
  | _ => all_chars isdigit_char s
  end.

(** Truthiness of a [str]. *)
Definition nonempty (s : string) : bool :=
  match s with EmptyString => false | _ => true end.

(** Python exceptions that occur in the modelled code. *)
Inductive exn : Type :=
| ValueError (msg : string)        (* raise ValueError(msg) *)
| IntLiteralError (lit : string)   (* the ValueError raised by int(lit) *)
| CastError                        (* what series.astype(int) raises *)
| KeyError (missing : list string) (* a frame indexed by absent columns *)
| LengthMismatch (have want : nat) (* a frame given the wrong number of column names *)
| LibraryError (msg : string)      (* anything raised inside the provider client *)
| HTTPException (status : Z) (cause : exn).
                                   (* detail is "pytrends error: " + str(cause) *)

Inductive result (A : Type) : Type :=
| Ok (a : A)
| Raise (e : exn).
Arguments Ok {A} a.
Arguments Raise {A} e.

Fixpoint int_digits (acc : Z) (s : string) : option Z :=
  match s with
  | EmptyString => Some acc
  | String c r =>
      match decimal_value c with
      | Some d => int_digits (10 * acc + d) r
      | None => None
      end
  end.

(** The interpreter's limit on the number of digits of a decimal literal,
    [sys.get_int_max_str_digits()]: 4300 by default. *)
Definition INT_MAX_STR_DIGITS : Z := 4300.

(** [int(s)] for an argument that has passed [s.isdigit()]: such a string
    carries no sign, blank or underscore, so it is read as a run of
    decimal digits. [int] raises [ValueError] on a character that is a
    digit without being a decimal digit, and on a literal of more than
    [INT_MAX_STR_DIGITS] digits (leading zeros count). *)
Definition int (s : string) : result Z :=
  match s with
  | EmptyString => Raise (IntLiteralError s)
  | _ =>
      if INT_MAX_STR_DIGITS <? Z.of_nat (String.length s)
      then Raise (IntLiteralError s)
      else match int_digits 0 s with
           | Some z => Ok z
           | None => Raise (IntLiteralError s)
           end
  end.

Definition digit_char (d : N) : ascii :=
  match d with
  | 0 => "0" | 1 => "1" | 2 => "2" | 3 => "3" | 4 => "4"
  | 5 => "5" | 6 => "6" | 7 => "7" | 8 => "8" | _ => "9"
  end%N%char.

Fixpoint str_fuel (fuel : nat) (n : N) : string :=
  match fuel with
  | O => EmptyString
  | S f =>
      if (n <? 10)%N then String (digit_char n) EmptyString
      else str_fuel f (n / 10)%N ++ String (digit_char (n mod 10)%N) EmptyString
  end.

(** Decimal rendering of a natural number, most significant digit first. *)
Definition str_N (n : N) : string := str_fuel (S (N.to_nat (N.size n))) n.

(** [str(z)] and the [{z}] of an f-string, for an integer [z]. *)
Definition str (z : Z) : string :=
  if z <? 0 then String "-"%char (str_N (Z.abs_N z)) else str_N (Z.to_N z).

End Py.

Import Py.

(** ** Window translation *)

(** [parse_since], lines 103-111 of app.py. *)
Definition parse_since (s : string) : result string :=
  let s := lower (strip (if nonempty s then s else "12m")) in
  if endswith s "m" && isdigit (init s) then
    match int (init s) with
    | Raise e => Raise e
    | Ok m => Ok (if 12 <=? m then "today 12-m" else "today " ++ str m ++ "-m")
    end
  else if endswith s "y" && isdigit (init s) then
    match int (init s) with
    | Raise e => Raise e
    | Ok y => Ok (if 5 <=? y then "today 5-y" else "today " ++ str y ++ "-y")
    end
  else Ok "today 12-m".

(** ** Python values, data frames and the provider *)

(** The JSON-like values the endpoints build, cache and return. *)
Inductive pyval : Type :=
| VNone
| VInt (z : Z)
| VStr (s : string)
| VList (l : list pyval)
| VDict (d : list (string * pyval)).

(** Python truthiness, as tested by [if cached:] and [labels or []]. *)
Definition truthy (v : pyval) : bool :=
  match v with
  | VNone => false
  | VInt z => negb (z =? 0)
  | VStr s => nonempty s
  | VList l => match l with [] => false | _ => true end
  | VDict d => match d with [] => false | _ => true end
  end.

Fixpoint dict_get (k : string) (d : list (string * pyval)) : option pyval :=
  match d with
  | [] => None
  | (k', v) :: r => if String.eqb k k' then Some v else dict_get k r
  end.

(** [d[k] = v] on an insertion-ordered dict. *)
Fixpoint dict_set (k : string) (v : pyval) (d : list (string * pyval))
  : list (string * pyval) :=
  match d with
  | [] => [(k, v)]
  | (k', v') :: r =>
      if String.eqb k k' then (k, v) :: r else (k', v') :: dict_set k v r
  end.

(** A pandas frame: the printed form [str(i)] of each index entry, and the
    named columns; a cell is [None] where pandas holds NaN. *)
Record DataFrame (A : Type) : Type := mkFrame {
  index : list string;
  columns : list (string * list (option A))
}.
Arguments mkFrame {A} index columns.
Arguments index {A} d.
Arguments columns {A} d.

(** A cell of a trending or related frame: a whole number or a string. *)
Inductive scalar : Type :=
| SInt (z : Z)
| SStr (s : string).

Definition pyval_of_scalar (x : scalar) : pyval :=
  match x with SInt z => VInt z | SStr s => VStr s end.

(** A cell of an interest column, seen through what [series.astype(int)]
    makes of it: the integer it becomes (whatever rounding or wrapping
    that takes), or the refusal of the cast (an infinity, an object that
    is no number). *)
Inductive number : Type :=
| Castable (z : Z)
| Uncastable.

(** [series.astype(int).tolist()]: the integers of the cells, unless the
    cast refuses one of them. *)
Fixpoint astype_int (cells : list number) : result (list Z) :=
  match cells with
  | [] => Ok []
  | Castable z :: r =>
      match astype_int r with
      | Ok l => Ok (z :: l)
      | Raise e => Raise e
      end
  | Uncastable :: _ => Raise CastError
  end.

Section Frames.
Context {A : Type}.

(** [df.empty]: one of the two axes has no entry. *)
Definition empty (df : DataFrame A) : bool :=
  match index df, columns df with
  | [], _ => true
  | _, [] => true
  | _, _ => false
  end.

Fixpoint column (name : string) (cols : list (string * list (option A)))
  : option (list (option A)) :=
  match cols with
  | [] => None
  | (n, cells) :: r => if String.eqb name n then Some cells else column name r
  end.

(** [name in df.columns]. *)
Definition has_column (name : string) (df : DataFrame A) : bool :=
  match column name (columns df) with Some _ => true | None => false end.

(** [series.fillna(x)]. *)
Definition fillna (x : A) (cells : list (option A)) : list A :=
  map (fun c => match c with Some a => a | None => x end) cells.

(** [series.dropna()]. *)
Definition dropna (cells : list (option A)) : list A :=
  omap (fun c => c) cells.
End Frames.

(** What [related_queries()] hands back: a dict that gives per keyword a
    block, itself a dict whose entries are frames or something else
    ([None] when there is no data); or no dict at all. *)
Inductive BlockEntry : Type :=
| BFrame (df : DataFrame scalar)
| BOther.

Inductive RelatedResponse : Type :=
| RQDict (d : gmap string (gmap string BlockEntry))
| RQOther.

(** One request to the provider: a fresh client ([pytrends_client()]), for
    [InterestOverTime] and [RelatedQueries] its [build_payload], and the
    query itself. *)
Inductive Call : Type :=
| TrendingSearches (pn : string)
| InterestOverTime (kw tf geo : string)
| RelatedQueries (kw tf geo : string).

(** The provider as an oracle: given the requests already made, each
    operation answers with the time it took and a frame or an exception. *)
Record Provider : Type := mkProvider {
  trending_searches : list Call -> string -> Q * result (DataFrame scalar);
  interest_over_time :
    list Call -> string -> string -> string -> Q * result (DataFrame number);
  related_queries :
    list Call -> string -> string -> string -> Q * result RelatedResponse
}.

(** ** The world and its monad *)

(** A cache entry, the dict [{"data": .., "ts": .., "ttl": ..}]. *)
Record Item : Type := mkItem {
  data : pyval;
  ts : Q;
  ttl : option Z
}.

Record World : Type := mkWorld {
  CACHE : gmap string Item;
  clock : Q;
  calls : list Call
}.

Definition CACHE_TTL : Z := 60 * 20.

(** Computations that read and write the world and may raise; an
    exception leaves the world as it was when it was raised. *)
Definition M (A : Type) : Type := World -> result A * World.

Definition ret {A} (a : A) : M A := fun w => (Ok a, w).
Definition raise {A} (e : exn) : M A := fun w => (Raise e, w).
Definition bind {A B} (m : M A) (k : A -> M B) : M B :=
  fun w => match m w with
           | (Ok a, w') => k a w'
           | (Raise e, w') => (Raise e, w')
           end.
(** [try: m except Exception as e: h e]. *)
Definition try_except {A} (m : M A) (h : exn -> M A) : M A :=
  fun w => match m w with
           | (Ok a, w') => (Ok a, w')
           | (Raise e, w') => h e w'
           end.
Definition lift {A} (r : result A) : M A := fun w => (r, w).

Notation "'do' x <- m ; k" := (bind m (fun x => k))
  (at level 10, x name, m at level 100, k at level 200,
   format "'[v' 'do'  x  <-  m ; '/' k ']'").

(** [time.time()]. *)
Definition time : M Q := fun w => (Ok (clock w), w).

(** Time passing between two operations. *)
Definition elapse (d : Q) (w : World) : World :=
  mkWorld (CACHE w) (clock w + d)%Q (calls w).

Definition Qgtb (x y : Q) : bool := negb (Qle_bool x y).

(** [cache_get], lines 92-98. *)
Definition cache_get (k : string) : M pyval :=
  fun w =>
    match CACHE w !! k with
    | None => (Ok VNone, w)
    | Some item =>
        let now := clock w in
        if Qgtb (now - ts item)%Q
                (inject_Z (match ttl item with Some t => t | None => CACHE_TTL end))
        then (Ok VNone, mkWorld (delete k (CACHE w)) (clock w) (calls w))
        else (Ok (data item), w)
    end.

(** [ttl or CACHE_TTL]. *)
Definition ttl_or_default (t : option Z) : Z :=
  match t with
  | Some t => if t =? 0 then CACHE_TTL else t
  | None => CACHE_TTL
  end.

(** [cache_set], lines 100-101. *)
Definition cache_set (k : string) (v : pyval) (t : option Z) : M unit :=
  fun w =>
    (Ok tt,
     mkWorld (<[k := mkItem v (clock w) (Some (ttl_or_default t))]> (CACHE w))
             (clock w) (calls w)).

(** ** Normalisation *)

(** [df["query"].dropna().head(30).tolist()] after [df.columns = ["query"]],
    which pandas refuses unless the frame has exactly one column. *)
Definition trending_items (df : DataFrame scalar) : result pyval :=
  match columns df with
  | [(_, cells)] =>
      Ok (VList (map pyval_of_scalar (firstn 30 (dropna cells))))
  | cols => Raise (LengthMismatch (length cols) 1)
  end.

(** Lines 144-147: [df[kw].fillna(0)], its labels and its values; the
    cast of line 146 may raise. *)
Definition interest_payload (kw : string) (df : DataFrame number)
  : result pyval :=
  let series := fillna (Castable 0) (default [] (column kw (columns df))) in
  let labels := map VStr (index df) in
  match astype_int series with
  | Raise e => Raise e
  | Ok values =>
      Ok (VDict [("labels", VList labels);
                 ("values", VList (map VInt values))])
  end.

Definition record (q v : scalar) : pyval :=
  VDict [("query", pyval_of_scalar q); ("value", pyval_of_scalar v)].

Fixpoint zip_records (qs vs : list scalar) : list pyval :=
  match qs, vs with
  | q :: qs', v :: vs' => record q v :: zip_records qs' vs'
  | _, _ => []
  end.

(** [df[["query","value"]].fillna(0).to_dict(orient="records")]. *)
Definition records (df : DataFrame scalar) : result pyval :=
  match column "query" (columns df), column "value" (columns df) with
  | Some qs, Some vs =>
      Ok (VList (zip_records (fillna (SInt 0) qs) (fillna (SInt 0) vs)))
  | qs, vs =>
      Raise (KeyError ((if qs is Some _ then [] else ["query"])
                         ++ (if vs is Some _ then [] else ["value"]))%list)
  end.

(** One of the two [if name in block and isinstance(block[name], pd.DataFrame)]
    updates of lines 165-168. *)
Definition fill_block (name : string) (block : gmap string BlockEntry)
    (out : list (string * pyval)) : result (list (string * pyval)) :=
  match block !! name with
  | Some (BFrame df) =>
      match records df with
      | Ok recs => Ok (dict_set name recs out)
      | Raise e => Raise e
      end
  | _ => Ok out
  end.

(** Lines 163-168: the normalised related block of keyword [kw]. *)
Definition normalize_related (kw : string) (rq : RelatedResponse)
  : result pyval :=
  let block := match rq with
               | RQDict d => default ∅ (d !! kw)
               | RQOther => ∅
               end in
  let out := [("top", VList []); ("rising", VList [])] in
  match fill_block "top" block out with
  | Raise e => Raise e
  | Ok out =>
      match fill_block "rising" block out with
      | Raise e => Raise e
      | Ok out => Ok (VDict out)
      end
  end.

(** The body of the request model [BatchInterestIn]. *)
Record BatchInterestIn : Type := mkBatch {
  geo : string;
  since : string;
  seeds : list string
}.

(** ** Endpoints *)

(** The cache keys [f"trending:{geo}"], [f"interest:{kw}:{geo}:{tf}"] and
    [f"related:{kw}:{geo}:{tf}"]. *)
Definition trending_key (geo : string) : string := "trending:" ++ geo.
Definition interest_key (kw geo tf : string) : string :=
  "interest:" ++ kw ++ ":" ++ geo ++ ":" ++ tf.
Definition related_key (kw geo tf : string) : string :=
  "related:" ++ kw ++ ":" ++ geo ++ ":" ++ tf.

Section Endpoints.
Variable pytrends : Provider.

(** A provider request: it is logged, takes its time, and returns or
    raises what the oracle says. *)
Definition request {A} (c : Call) (answer : list Call -> Q * result A) : M A :=
  fun w =>
    let '(d, r) := answer (calls w) in
    (r, mkWorld (CACHE w) (clock w + d)%Q (calls w ++ [c])%list).

Definition fetch_trending (pn : string) : M (DataFrame scalar) :=
  request (TrendingSearches pn) (fun h => trending_searches pytrends h pn).

Definition fetch_interest (kw tf geo : string) : M (DataFrame number) :=
  request (InterestOverTime kw tf geo)
          (fun h => interest_over_time pytrends h kw tf geo).

Definition fetch_related (kw tf geo : string) : M RelatedResponse :=
  request (RelatedQueries kw tf geo)
          (fun h => related_queries pytrends h kw tf geo).

Definition bad_gateway {A} (e : exn) : M A := raise (HTTPException 502 e).

(** [api_trending], lines 117-130. *)
Definition api_trending (geo : string) : M pyval :=
  let key := trending_key geo in
  do cached <- cache_get key;
  if truthy cached then ret (VDict [("items", cached)])
  else
    do items <- try_except
                  (do df <- fetch_trending (lower geo);
                   lift (trending_items df))
                  bad_gateway;
    do _ <- cache_set key items (Some (60 * 30));
    ret (VDict [("items", items)]).

(** [api_interest], lines 132-151. *)
Definition api_interest (kw geo since : string) : M pyval :=
  do tf <- lift (parse_since since);
  let key := interest_key kw geo tf in
  do cached <- cache_get key;
  if truthy cached then ret cached
  else
    try_except
      (do df <- fetch_interest kw tf geo;
       if empty df || negb (has_column kw df)
       then raise (ValueError "Empty interest")
       else
         do payload <- lift (interest_payload kw df);
         do _ <- cache_set key payload None;
         ret payload)
      bad_gateway.

(** [api_related], lines 153-172. *)
Definition api_related (kw geo since : string) : M pyval :=
  do tf <- lift (parse_since since);
  let key := related_key kw geo tf in
  do cached <- cache_get key;
  if truthy cached then ret cached
  else
    try_except
      (do rq <- fetch_related kw tf geo;
       do out <- lift (normalize_related kw rq);
       do _ <- cache_set key out (Some (60 * 30));
       ret out)
      bad_gateway.

(** The loop state of [api_batch_interest]: [labels] and [series_out]. *)
Definition batch_state : Type := option (list string) * list pyval.

(** One iteration of the loop of lines 179-189. The [except] clause
    finds the loop variables as the [try] body left them: [labels] is
    assigned on line 186, before the cast of line 187 can raise, so an
    exception of that cast is handled with the new [labels] and the old
    [series_out]. *)
Definition batch_step (tf geo : string) (st : batch_state) (term : string)
  : M batch_state :=
  try_except
    (do df <- fetch_interest term tf geo;
     if empty df || negb (has_column term df) then ret st
     else
       let s := fillna (Castable 0) (default [] (column term (columns df))) in
       let labels := match fst st with
                     | None => Some (index df)
                     | Some l => Some l
                     end in
       try_except
         (do values <- lift (astype_int s);
          ret (labels,
               (snd st ++ [VDict [("term", VStr term);
                                  ("values", VList (map VInt values))]])%list))
         (fun _ => ret (labels, snd st)))
    (fun _ => ret st).

Fixpoint batch_loop (tf geo : string) (terms : list string) (st : batch_state)
  : M batch_state :=
  match terms with
  | [] => ret st
  | term :: rest =>
      do st' <- batch_step tf geo st term;
      batch_loop tf geo rest st'
  end.

(** [api_batch_interest], lines 174-190. *)
Definition api_batch_interest (payload : BatchInterestIn) : M pyval :=
  do tf <- lift (parse_since (since payload));
  do st <- batch_loop tf (geo payload) (firstn 5 (seeds payload)) (None, []);
  (* labels or []: an empty list is falsy and gives [] as well *)
  let labels := match fst st with
                | Some l => l
                | None => []
                end in
  ret (VDict [("labels", VList (map VStr labels));
              ("series", VList (snd st))]).

End Endpoints.

(** ** Vocabulary of the statements *)

(** [c in s]. *)
Fixpoint has_char (c : ascii) (s : string) : bool :=
  match s with
  | EmptyString => false
  | String x r => Ascii.eqb x c || has_char c r
  end.

(** All the tokens [parse_since] can produce. *)
Definition month_token (k : Z) : string := "today " ++ str k ++ "-m".
Definition year_token (k : Z) : string := "today " ++ str k ++ "-y".

Definition window_tokens : list string :=
  app (map month_token [0; 1; 2; 3; 4; 5; 6; 7; 8; 9; 10; 11; 12])
      (map year_token [0; 1; 2; 3; 4; 5]).

(** The decimal digits proper, the characters [int] reads. *)
Definition is_decimal (c : ascii) : bool :=
  match decimal_value c with Some _ => true | None => false end.

(** The superscript digits U+00B9, U+00B2 and U+00B3. *)
Definition superscript_one : ascii := ascii_of_N 185.
Definition superscript_two : ascii := ascii_of_N 178.
Definition superscript_three : ascii := ascii_of_N 179.

(** [c * n], the character [c] repeated [n] times. *)
Fixpoint repeat_char (c : ascii) (n : nat) : string :=
  match n with
  | O => EmptyString
  | S k => String c (repeat_char c k)
  end.

(** An amount of 4301 digits, one more than [int] takes: ["9" * 4301]. *)
Definition long_amount : string := repeat_char "9" 4301.

(** One element of the batch [series]. *)
Definition series_entry (term : string) (vals : list Z) : pyval :=
  VDict [("term", VStr term); ("values", VList (map VInt vals))].

(** The integers of the column of [term] in [df], as line 187 casts them. *)
Definition cast_column (term : string) (df : DataFrame number)
  : result (list Z) :=
  astype_int (fillna (Castable 0) (default [] (column term (columns df)))).

(** The state the loop of the batch reaches from [st] once the provider
    has answered [r] for [term]. *)
Definition absorb (st : batch_state) (term : string)
    (r : result (DataFrame number)) : batch_state :=
  match r with
  | Ok df =>
      if empty df || negb (has_column term df) then st
      else
        let labels := match fst st with
                      | None => Some (index df)
                      | Some l => Some l
                      end in
        match cast_column term df with
        | Ok vals => (labels, (snd st ++ [series_entry term vals])%list)
        | Raise _ => (labels, snd st)
        end
  | Raise _ => st
  end.

(** The world after one interest request answered in [d] time units. *)
Definition after_fetch (term tf geo : string) (d : Q) (w : World) : World :=
  mkWorld (CACHE w) (clock w + d)%Q
          (calls w ++ [InterestOverTime term tf geo])%list.

(** The world with another cache in place of its own. *)
Definition set_cache (C : gmap string Item) (w : World) : World :=
  mkWorld C (clock w) (calls w).

(** A computation that neither reads nor writes [CACHE]: run on any other
    cache it has the same outcome, the same effect on the rest of the
    world, and leaves that cache as it found it. *)
Definition cache_free {A} (m : M A) : Prop :=
  forall w C, m (set_cache C w) = (fst (m w), set_cache C (snd (m w))).

(** Two worlds that agree on everything but the cache. *)
Definition same_outside (w1 w2 : World) : Prop :=
  clock w1 = clock w2 /\ calls w1 = calls w2.

(** A computation that does not read [CACHE] (it may write it): its
    outcome and its effect outside the cache do not depend on the cache. *)
Definition cache_blind {A} (m : M A) : Prop :=
  forall w1 w2, same_outside w1 w2 ->
    fst (m w1) = fst (m w2) /\ same_outside (snd (m w1)) (snd (m w2)).

(** The entry [item] has not outlived its ttl at the clock of [w]. *)
Definition fresh (item : Item) (w : World) : Prop :=
  Qgtb (clock w - ts item)%Q
       (inject_Z (match ttl item with Some t => t | None => CACHE_TTL end))
  = false.

(** The block of keyword [kw] in a provider response, as line 163 reads it. *)
Definition block_of (kw : string) (rq : RelatedResponse)
  : gmap string BlockEntry :=
  match rq with
  | RQDict d => default ∅ (d !! kw)
  | RQOther => ∅
  end.

(** The frame the provider supplied under [name], if it supplied one. *)
Definition supplied (name : string) (block : gmap string BlockEntry)
  : option (DataFrame scalar) :=
  match block !! name with
  | Some (BFrame df) => Some df
  | _ => None
  end.

(** A sample provider: no trending data on the first request, interest
    figures for every keyword but ["bad"] (the provider fails) and ["inf"]
    (a figure that cannot be cast), and a top block only. *)
Definition sample_frame (kw : string) : DataFrame number :=
  mkFrame ["2024-01-07"; "2024-01-14"]
          [(kw, [Some (Castable 3); None]);
           ("isPartial", [Some (Castable 0); Some (Castable 1)])].

Definition uncastable_frame (kw : string) : DataFrame number :=
  mkFrame ["2023-12-31"] [(kw, [Some Uncastable])].

Definition sample_top : DataFrame scalar :=
  mkFrame ["0"; "1"]
          [("query", [Some (SStr "x"); Some (SStr "y")]);
           ("value", [Some (SInt 100); None])].

Definition sample_provider : Provider :=
  mkProvider
    (fun _ _ => (1%Q, Ok (mkFrame ["0"] [("0", [Some (SStr "news")])])))
    (fun _ kw _ _ =>
       (1%Q, if String.eqb kw "bad" then Raise (LibraryError "429")
             else if String.eqb kw "inf" then Ok (uncastable_frame kw)
             else Ok (sample_frame kw)))
    (fun _ kw _ _ =>
       (1%Q, Ok (RQDict {[ kw := {[ "top" := BFrame sample_top ]} ]}))).

(** A provider that is down. *)
Definition down_provider : Provider :=
  mkProvider (fun _ _ => (1%Q, Raise (LibraryError "down")))
             (fun _ _ _ _ => (1%Q, Raise (LibraryError "down")))
             (fun _ _ _ _ => (1%Q, Raise (LibraryError "down"))).

Definition seven_seeds : BatchInterestIn :=
  mkBatch "CZ" "3m" ["a"; "bad"; "c"; "d"; "e"; "f"; "g"].

Definition empty_world : World := mkWorld ∅ 0%Q [].

(** The world after a provider request [c] answered in [d] time units. *)
Definition after_request (c : Call) (d : Q) (w : World) : World :=
  mkWorld (CACHE w) (clock w + d)%Q (calls w ++ [c])%list.

(** What the three cached endpoints do once the lookup has missed, spelt
    out on the provider's answer. *)
Definition trending_miss (pytrends : Provider) (geo : string) (w : World)
  : result pyval * World :=
  let a := trending_searches pytrends (calls w) (lower geo) in
  let w' := after_request (TrendingSearches (lower geo)) (fst a) w in
  match snd a with
  | Raise e => (Raise (HTTPException 502 e), w')
  | Ok df =>
      match trending_items df with
      | Raise e => (Raise (HTTPException 502 e), w')
      | Ok items =>
          (Ok (VDict [("items", items)]),
           snd (cache_set (trending_key geo) items (Some 1800) w'))
      end
  end.

Definition interest_miss (pytrends : Provider) (kw geo tf : string) (w : World)
  : result pyval * World :=
  let a := interest_over_time pytrends (calls w) kw tf geo in
  let w' := after_request (InterestOverTime kw tf geo) (fst a) w in
  match snd a with
  | Raise e => (Raise (HTTPException 502 e), w')
  | Ok df =>
      if empty df || negb (has_column kw df)
      then (Raise (HTTPException 502 (ValueError "Empty interest")), w')
      else
        match interest_payload kw df with
        | Raise e => (Raise (HTTPException 502 e), w')
        | Ok payload =>
            (Ok payload,
             snd (cache_set (interest_key kw geo tf) payload None w'))
        end
  end.

Definition related_miss (pytrends : Provider) (kw geo tf : string) (w : World)
  : result pyval * World :=
  let a := related_queries pytrends (calls w) kw tf geo in
  let w' := after_request (RelatedQueries kw tf geo) (fst a) w in
  match snd a with
  | Raise e => (Raise (HTTPException 502 e), w')
  | Ok rq =>
      match normalize_related kw rq with
      | Raise e => (Raise (HTTPException 502 e), w')
      | Ok out =>
          (Ok out, snd (cache_set (related_key kw geo tf) out (Some 1800) w'))
      end
  end.


(** ** The group and keyword registry *)

(** The SQLite file [data.db]: the two tables by rowid (both have an
    [INTEGER PRIMARY KEY AUTOINCREMENT]) and, for each, the largest rowid
    it has issued so far, which SQLite keeps in [sqlite_sequence]. Every
    endpoint opens its own connection and commits before it returns;
    failures of the storage itself are not part of the model, except for
    the end of the rowid range. *)
Record Database : Type := mkDatabase {
  groups : gmap Z string;            (* id -> name *)
  groups_seq : Z;
  keywords : gmap Z (Z * string);    (* id -> (group_id, term) *)
  keywords_seq : Z
}.

(** What [init_db] leaves behind on a new file. *)
Definition empty_database : Database := mkDatabase ∅ 0 ∅ 0.

Definition MAX_ROWID : Z := 9223372036854775807.
Definition MIN_ROWID : Z := -9223372036854775808.

(** Whether a Python integer can be bound to a statement: SQLite integers
    have 64 bits, and [sqlite3] raises [OverflowError] on any other. *)
Definition fits_int64 (z : Z) : bool := (MIN_ROWID <=? z) && (z <=? MAX_ROWID).

Definition list_max (l : list Z) : option Z :=
  foldr (fun k acc => Some (match acc with None => k | Some m => Z.max k m end))
        None l.

(** The largest rowid in a table, if it has a row. *)
Definition max_rowid {A} (rows : gmap Z A) : option Z :=
  list_max (map fst (map_to_list rows)).

(** The rowid an [AUTOINCREMENT] table gives to a new row: one more than
    the largest rowid in the table, and more than every rowid issued
    before; none when the largest possible rowid has been reached. *)
Definition next_rowid {A} (rows : gmap Z A) (seq : Z) : option Z :=
  let top := max_rowid rows in
  if bool_decide (top = Some MAX_ROWID) || (seq =? MAX_ROWID) then None
  else Some (Z.max (match top with None => 1 | Some m => m + 1 end) (seq + 1)).

(** The order of [ORDER BY id DESC]. *)
Definition id_desc : relation Z := fun x y => y <= x.

#[global] Instance id_desc_dec : RelDecision id_desc :=
  fun x y => decide (y <= x).

(** [ORDER BY id DESC] over the rowids of a table. *)
Definition ids_desc {A} (rows : gmap Z A) : list Z :=
  merge_sort id_desc (map fst (map_to_list rows)).

Inductive registry_error : Type :=
| NotFound (detail : string)   (* HTTPException(404, detail) *)
| DatabaseFull                 (* sqlite3 refuses the INSERT: SQLITE_FULL *)
| IntOverflow.                 (* OverflowError while binding an integer *)

Inductive outcome (A : Type) : Type :=
| Returned (a : A)
| Failed (e : registry_error).
Arguments Returned {A} a.
Arguments Failed {A} e.

(** The request models [GroupIn] and [KeywordIn]. *)
Record GroupIn : Type := mkGroupIn { name : string }.
Record KeywordIn : Type := mkKeywordIn { group_id : Z; term : string }.

(** The dicts the registry endpoints return. *)
Record KeywordRow : Type := mkKeywordRow { kw_id : Z; kw_term : string }.
Record GroupRow : Type := mkGroupRow {
  g_id : Z;
  g_name : string;
  g_keywords : list KeywordRow
}.
Record GroupOut : Type := mkGroupOut { out_id : Z; out_name : string }.
Record KeywordOut : Type := mkKeywordOut {
  out_kid : Z;
  out_group_id : Z;
  out_term : string
}.

(** [SELECT id,name FROM groups ORDER BY id DESC]. *)
Definition select_groups (db : Database) : list (Z * string) :=
  omap (fun id => (fun n => (id, n)) <$> groups db !! id) (ids_desc (groups db)).

(** The rows [WHERE group_id=?] of [keywords]. *)
Definition keywords_of (gid : Z) (db : Database) : gmap Z (Z * string) :=
  filter (fun kv => fst (snd kv) = gid) (keywords db).

(** [SELECT id, term FROM keywords WHERE group_id=? ORDER BY id DESC]. *)
Definition select_keywords (gid : Z) (db : Database) : list KeywordRow :=
  omap (fun id => (fun r => mkKeywordRow id (snd r)) <$> keywords_of gid db !! id)
       (ids_desc (keywords_of gid db)).

(** [list_groups], lines 193-201: the value of ["items"]. *)
Definition list_groups (db : Database) : list GroupRow :=
  map (fun g => mkGroupRow (fst g) (snd g) (select_keywords (fst g) db))
      (select_groups db).

(** [create_group], lines 203-210. *)
Definition create_group (g : GroupIn) (db : Database)
  : outcome GroupOut * Database :=
  match next_rowid (groups db) (groups_seq db) with
  | None => (Failed DatabaseFull, db)
  | Some gid =>
      (Returned (mkGroupOut gid (name g)),
       mkDatabase (<[gid := strip (name g)]> (groups db)) gid
                  (keywords db) (keywords_seq db))
  end.

(** [delete_group], lines 212-218; the response is [{"ok": True}]. *)
Definition delete_group (gid : Z) (db : Database) : outcome bool * Database :=
  if fits_int64 gid then
    (Returned true,
     mkDatabase (delete gid (groups db)) (groups_seq db)
                (filter (fun kv => fst (snd kv) <> gid) (keywords db))
                (keywords_seq db))
  else (Failed IntOverflow, db).

(** [create_keyword], lines 220-229. *)
Definition create_keyword (k : KeywordIn) (db : Database)
  : outcome KeywordOut * Database :=
  if fits_int64 (group_id k) then
    match groups db !! group_id k with
    | None => (Failed (NotFound "Skupina neexistuje"), db)
    | Some _ =>
        match next_rowid (keywords db) (keywords_seq db) with
        | None => (Failed DatabaseFull, db)
        | Some kid =>
            (Returned (mkKeywordOut kid (group_id k) (term k)),
             mkDatabase (groups db) (groups_seq db)
                        (<[kid := (group_id k, strip (term k))]> (keywords db))
                        kid)
        end
    end
  else (Failed IntOverflow, db).

(** [delete_keyword], lines 231-236; the response is [{"ok": True}]. *)
Definition delete_keyword (kid : Z) (db : Database) : outcome bool * Database :=
  if fits_int64 kid then
    (Returned true,
     mkDatabase (groups db) (groups_seq db)
                (delete kid (keywords db)) (keywords_seq db))
  else (Failed IntOverflow, db).

(** Every keyword belongs to a group of the table. *)
Definition referential (db : Database) : Prop :=
  forall kid gid t, keywords db !! kid = Some (gid, t) ->
                    is_Some (groups db !! gid).

(** One request to the registry, and its effect on the database. *)
Inductive registry_op : Type :=
| CreateGroup (g : GroupIn)
| DeleteGroup (gid : Z)
| CreateKeyword (k : KeywordIn)
| DeleteKeyword (kid : Z)
| ListGroups.

Definition run_op (op : registry_op) (db : Database) : Database :=
  match op with
  | CreateGroup g => snd (create_group g db)
  | DeleteGroup gid => snd (delete_group gid db)
  | CreateKeyword k => snd (create_keyword k db)
  | DeleteKeyword kid => snd (delete_keyword kid db)
  | ListGroups => db
  end.

Definition run_ops (ops : list registry_op) (db : Database) : Database :=
  foldl (fun d op => run_op op d) db ops.

(** ** The request gate *)

(** What the gate looks at: the path and the [X-API-Key] header. *)
Record Request : Type := mkRequest {
  path : string;
  x_api_key : option string
}.

Inductive gated (R : Type) : Type :=
| Unauthorized            (* JSONResponse({"error": "Unauthorized"}, 401) *)
| Passed (r : R).
Arguments Unauthorized {R}.
Arguments Passed {R} r.

Section Gate.
Variable API_KEY : string.
Context {S R : Type}.
Variable call_next : Request -> S -> R * S.

(** [key != API_KEY], where an absent header is [None]. *)
Definition key_differs (key : option string) : bool :=
  match key with
  | Some k => negb (String.eqb k API_KEY)
  | None => true
  end.

(** [auth_middleware], lines 67-73. *)
Definition auth_middleware (request : Request) (s : S) : gated R * S :=
  if String.prefix "/api/" (path request) && key_differs (x_api_key request)
  then (Unauthorized, s)
  else let '(r, s') := call_next request s in (Passed r, s').
End Gate.

(** * Properties *)

(** ** CacheStore *)

Lemma Qgtb_true (x y : Q) : Qgtb x y = true <-> (y < x)%Q.
Proof.
  unfold Qgtb. rewrite negb_true_iff, <- not_true_iff_false, Qle_bool_iff.
  split; [apply Qnot_le_lt | apply Qlt_not_le].
Qed.

Lemma Qgtb_false (x y : Q) : Qgtb x y = false <-> (x <= y)%Q.
Proof. unfold Qgtb. by rewrite negb_false_iff, Qle_bool_iff. Qed.

Lemma ttl_or_default_nonzero (T : Z) : T <> 0 -> ttl_or_default (Some T) = T.
Proof. intros H. unfold ttl_or_default. by destruct (Z.eqb_spec T 0). Qed.

(** A lookup in a cache without the key is a miss that changes nothing. *)
Lemma cache_get_absent (k : string) (w : World) :
  CACHE w !! k = None -> cache_get k w = (Ok VNone, w).
Proof. intros H. unfold cache_get. by rewrite H. Qed.

(** Reading the entry [cache_set] has just written, [d] time units later. *)
Lemma cache_get_after_set (k : string) (v : pyval) (t : option Z) (d : Q)
    (w : World) :
  cache_get k (elapse d (snd (cache_set k v t w))) =
    if Qgtb d (inject_Z (ttl_or_default t))
    then (Ok VNone, mkWorld (delete k (CACHE w)) (clock w + d)%Q (calls w))
    else (Ok v, elapse d (snd (cache_set k v t w))).
Proof.
  unfold cache_get, elapse, cache_set; cbn [snd CACHE clock calls data ts ttl].
  rewrite lookup_insert_eq; cbn [data ts ttl].
  assert (E : Qgtb (clock w + d - clock w) (inject_Z (ttl_or_default t))
              = Qgtb d (inject_Z (ttl_or_default t))).
  { destruct (Qgtb d _) eqn:G.
    - apply Qgtb_true in G. apply Qgtb_true. lra.
    - apply Qgtb_false in G. apply Qgtb_false. lra. }
  rewrite E. destruct (Qgtb d _); [|done].
  by rewrite delete_insert_eq.
Qed.

(** C1, as stated, fails for a ttl of 0: [ttl or CACHE_TTL] replaces it by
    the default of 1200, so one time unit after [cache_set("k", 7, 0)] the
    entry is still served although more than 0 time units have elapsed. *)
Lemma cache_ttl_zero_still_served :
  let w := mkWorld ∅ 0%Q [] in
  let w1 := snd (cache_set "k" (VInt 7) (Some 0) w) in
  (inject_Z 0 < 1)%Q
  /\ fst (cache_get "k" (elapse 1 w1)) = Ok (VInt 7)
  /\ fst (cache_get "k" (elapse 1 w1)) <> Ok VNone.
Proof. vm_compute. split; [done | split; [done | discriminate]]. Qed.

(** C1 (amended): after [cache_set(k, v, T)], a [cache_get(k)] made less
    than [T] time units later returns [v]; when [T] is not 0, a
    [cache_get(k)] made more than [T] time units later returns [None] and
    removes the entry, so that every further [cache_get(k)] returns [None]
    too; a ttl of 0 stands for the default [CACHE_TTL] of 1200. *)
Theorem cache_set_get_ttl (w : World) (k : string) (v : pyval) (T : Z) (d : Q) :
  let w1 := snd (cache_set k v (Some T) w) in
  ((d < inject_Z T)%Q -> cache_get k (elapse d w1) = (Ok v, elapse d w1))
  /\ (T <> 0 -> (inject_Z T < d)%Q ->
      exists w2, cache_get k (elapse d w1) = (Ok VNone, w2)
                 /\ CACHE w2 !! k = None
                 /\ forall d', cache_get k (elapse d' w2) = (Ok VNone, elapse d' w2))
  /\ (T = 0 -> cache_get k (elapse d w1)
               = cache_get k (elapse d (snd (cache_set k v (Some CACHE_TTL) w)))).
Proof.
  intros w1; subst w1. repeat split.
  - intros Hd. rewrite cache_get_after_set.
    destruct (Qgtb d _) eqn:G; [|done].
    apply Qgtb_true in G. exfalso.
    unfold ttl_or_default in G. destruct (Z.eqb_spec T 0) as [->|_].
    + pose proof (Qlt_trans _ _ _ G Hd) as X. vm_compute in X. discriminate.
    + lra.
  - intros HT Hd. rewrite cache_get_after_set, ttl_or_default_nonzero by done.
    apply Qgtb_true in Hd. rewrite Hd. eexists; split; [done|].
    cbn [CACHE]. split; [apply lookup_delete_eq|].
    intros d'. apply cache_get_absent. cbn. apply lookup_delete_eq.
  - intros ->. by rewrite !cache_get_after_set.
Qed.

Lemma cache_set_get_ttl_witness :
  let w := mkWorld ∅ 0%Q [] in
  let w1 := snd (cache_set "k" (VInt 7) (Some 5) w) in
  cache_get "k" (elapse 1 w1) = (Ok (VInt 7), elapse 1 w1)
  /\ exists w2, cache_get "k" (elapse 6 w1) = (Ok VNone, w2)
                /\ CACHE w2 !! "k" = None
                /\ forall d', cache_get "k" (elapse d' w2) = (Ok VNone, elapse d' w2).
Proof.
  intros w w1.
  destruct (cache_set_get_ttl w "k" (VInt 7) 5 1) as [H1 _].
  destruct (cache_set_get_ttl w "k" (VInt 7) 5 6) as [_ [H2 _]].
  split.
  - apply H1. reflexivity.
  - apply H2; [discriminate | reflexivity].
Defined.

(** ** Window tokens *)

Lemma append_nil (b : string) : "" ++ b = b.
Proof. reflexivity. Qed.

Lemma append_cons (x : ascii) (a b : string) :
  String x a ++ b = String x (a ++ b).
Proof. reflexivity. Qed.

Ltac norm_append := rewrite ?append_cons, ?append_nil in *.

Lemma append_assoc (a b c : string) : (a ++ b) ++ c = a ++ (b ++ c).
Proof. induction a as [|x a IH]; norm_append; [done | by f_equal]. Qed.

Lemma has_char_app (c : ascii) (a b : string) :
  has_char c (a ++ b) = has_char c a || has_char c b.
Proof.
  induction a as [|x a IH]; norm_append; simpl; [done|].
  by rewrite IH, orb_assoc.
Qed.

(** Two strings cut at the first occurrence of [c] agree part by part. *)
Lemma split_first (c : ascii) (a a' r r' : string) :
  has_char c a = false -> has_char c a' = false ->
  a ++ String c r = a' ++ String c r' -> a = a' /\ r = r'.
Proof.
  revert a'. induction a as [|x a IH]; intros [|x' a']; simpl; intros Ha Ha' E;
    norm_append.
  - by inversion E.
  - inversion E; subst. by rewrite Ascii.eqb_refl in Ha'.
  - inversion E; subst. by rewrite Ascii.eqb_refl in Ha.
  - apply orb_false_iff in Ha as [_ Ha], Ha' as [_ Ha'].
    inversion E; subst. destruct (IH a' Ha Ha') as [-> ->]; done.
Qed.

(** The same for the last occurrence. *)
Lemma split_last (c : ascii) (a a' r r' : string) :
  has_char c a = false -> has_char c a' = false ->
  r ++ String c a = r' ++ String c a' -> r = r' /\ a = a'.
Proof.
  intros Ha Ha'. revert r'.
  induction r as [|x r IH]; intros [|x' r']; intros E; norm_append.
  - by inversion E.
  - inversion E; subst. rewrite has_char_app in Ha. cbn in Ha.
    rewrite Ascii.eqb_refl, orb_true_r in Ha. done.
  - inversion E; subst. rewrite has_char_app in Ha'. cbn in Ha'.
    rewrite Ascii.eqb_refl, orb_true_r in Ha'. done.
  - inversion E; subst. destruct (IH r') as [-> ->]; done.
Qed.

Lemma decimal_value_bounds (c : ascii) (d : Z) :
  decimal_value c = Some d -> 0 <= d <= 9.
Proof.
  unfold decimal_value.
  destruct (_ && _)%N eqn:E; [|done]. intros [= <-].
  apply andb_true_iff in E as [E1 E2].
  apply N.leb_le in E1, E2. lia.
Qed.

Lemma int_digits_nonneg (s : string) (acc z : Z) :
  int_digits acc s = Some z -> 0 <= acc -> 0 <= z.
Proof.
  revert acc. induction s as [|c s IH]; cbn; intros acc.
  - intros [= <-]. done.
  - destruct (decimal_value c) as [d|] eqn:D; [|done].
    intros H Hacc. apply decimal_value_bounds in D.
    apply (IH _ H). lia.
Qed.

Lemma int_nonneg (s : string) (z : Z) : int s = Ok z -> 0 <= z.
Proof.
  unfold int. destruct s as [|c s]; [done|].
  destruct (INT_MAX_STR_DIGITS <? _); [done|].
  destruct (int_digits 0 (String c s)) as [z'|] eqn:E; [|done].
  intros [= <-]. by apply (int_digits_nonneg _ _ _ E).
Qed.

Lemma parse_since_tokens (s tf : string) :
  parse_since s = Ok tf -> In tf window_tokens.
Proof.
  unfold parse_since.
  set (s' := lower _).
  destruct (endswith s' "m" && isdigit (init s')).
  { destruct (int (init s')) as [m|] eqn:E; [|done].
    apply int_nonneg in E. intros [= <-].
    destruct (Z.leb_spec 12 m); [vm_compute; tauto|].
    assert (Hm : In m [0; 1; 2; 3; 4; 5; 6; 7; 8; 9; 10; 11]) by (cbn; lia).
    unfold window_tokens. apply in_or_app. left.
    apply (in_map month_token).
    cbn in *; intuition. }
  destruct (endswith s' "y" && isdigit (init s')).
  { destruct (int (init s')) as [y|] eqn:E; [|done].
    apply int_nonneg in E. intros [= <-].
    destruct (Z.leb_spec 5 y); [vm_compute; tauto|].
    assert (Hy : In y [0; 1; 2; 3; 4]) by (cbn; lia).
    unfold window_tokens. apply in_or_app. right.
    apply (in_map year_token).
    cbn in *; intuition. }
  intros [= <-]. vm_compute; tauto.
Qed.

Lemma window_token_no_colon (s tf : string) :
  parse_since s = Ok tf -> has_char ":" tf = false.
Proof.
  intros H. apply parse_since_tokens in H.
  assert (F : Forall (fun t => has_char ":" t = false) window_tokens).
  { vm_compute. repeat constructor. }
  rewrite Forall_forall in F. by apply F, list_elem_of_In.
Qed.

(** ** Cache keys *)

(** C2, as stated, fails: the key joins its parts with [":"] and nothing
    escapes a [":"] inside a part, so the keyword ["a:b"] with geo ["c"] and
    the keyword ["a"] with geo ["b:c"] share a key. *)
Lemma cache_key_collision :
  interest_key "a:b" "c" "today 12-m" = interest_key "a" "b:c" "today 12-m"
  /\ related_key "a:b" "c" "today 12-m" = related_key "a" "b:c" "today 12-m"
  /\ parse_since "12m" = Ok "today 12-m"
  /\ ("a:b", "c") <> ("a", "b:c").
Proof. repeat split; [reflexivity ..| discriminate]. Qed.

Lemma joined_inj (kw1 geo1 tf1 kw2 geo2 tf2 : string) :
  has_char ":" tf1 = false -> has_char ":" tf2 = false ->
  has_char ":" geo1 = false /\ has_char ":" geo2 = false
  \/ has_char ":" kw1 = false /\ has_char ":" kw2 = false ->
  kw1 ++ ":" ++ geo1 ++ ":" ++ tf1 = kw2 ++ ":" ++ geo2 ++ ":" ++ tf2 ->
  kw1 = kw2 /\ geo1 = geo2 /\ tf1 = tf2.
Proof.
  intros T1 T2 [[G1 G2]|[K1 K2]] E.
  - rewrite <- (append_assoc kw1 ":" (geo1 ++ ":" ++ tf1)),
      <- (append_assoc kw2 ":" (geo2 ++ ":" ++ tf2)),
      <- (append_assoc (kw1 ++ ":") geo1), <- (append_assoc (kw2 ++ ":") geo2) in E.
    change (":" ++ tf1) with (String ":" tf1) in E.
    change (":" ++ tf2) with (String ":" tf2) in E.
    apply split_last in E as [E ->]; [|done..].
    rewrite !append_assoc in E.
    change (":" ++ geo1) with (String ":" geo1) in E.
    change (":" ++ geo2) with (String ":" geo2) in E.
    apply split_last in E as [-> ->]; done.
  - change (":" ++ geo1 ++ ":" ++ tf1) with (String ":" (geo1 ++ ":" ++ tf1)) in E.
    change (":" ++ geo2 ++ ":" ++ tf2) with (String ":" (geo2 ++ ":" ++ tf2)) in E.
    apply split_first in E as [-> E]; [|done..].
    change (":" ++ tf1) with (String ":" tf1) in E.
    change (":" ++ tf2) with (String ":" tf2) in E.
    apply split_last in E as [-> ->]; done.
Qed.

(** C2 (amended): for two requests to the same cached operation whose
    window tokens come from [parse_since], and in which no geo holds a
    [":"] (or no keyword does), the keys are equal exactly when keyword,
    geo and window token are equal. *)
Theorem cache_key_injective
    (kw1 geo1 since1 tf1 kw2 geo2 since2 tf2 : string) :
  parse_since since1 = Ok tf1 -> parse_since since2 = Ok tf2 ->
  has_char ":" geo1 = false /\ has_char ":" geo2 = false
  \/ has_char ":" kw1 = false /\ has_char ":" kw2 = false ->
  (interest_key kw1 geo1 tf1 = interest_key kw2 geo2 tf2
     <-> kw1 = kw2 /\ geo1 = geo2 /\ tf1 = tf2)
  /\ (related_key kw1 geo1 tf1 = related_key kw2 geo2 tf2
     <-> kw1 = kw2 /\ geo1 = geo2 /\ tf1 = tf2).
Proof.
  intros P1 P2 H.
  apply window_token_no_colon in P1, P2.
  split; (split; [|by intros (-> & -> & ->)]); intros E.
  - unfold interest_key in E. apply (String.app_inj "interest:") in E.
    by apply joined_inj.
  - unfold related_key in E. apply (String.app_inj "related:") in E.
    by apply joined_inj.
Qed.

Lemma cache_key_injective_witness :
  (interest_key "a:b" "CZ" "today 3-m" = interest_key "a" "SK" "today 12-m"
     <-> "a:b" = "a" /\ "CZ" = "SK" /\ "today 3-m" = "today 12-m")
  /\ (related_key "a:b" "CZ" "today 3-m" = related_key "a" "SK" "today 12-m"
     <-> "a:b" = "a" /\ "CZ" = "SK" /\ "today 3-m" = "today 12-m").
Proof.
  apply (cache_key_injective "a:b" "CZ" " 3M" "today 3-m" "a" "SK" "24m" "today 12-m");
    [reflexivity | reflexivity | left; split; reflexivity].
Defined.

(** ** WindowTranslator *)

(** *** Decimal digits *)

Lemma digit_char_value (d : N) :
  (d < 10)%N -> decimal_value (digit_char d) = Some (Z.of_N d).
Proof.
  intros H.
  assert (E : In d [0; 1; 2; 3; 4; 5; 6; 7; 8; 9]%N) by (cbn; lia).
  cbn in E. intuition (subst; reflexivity).
Qed.

Lemma decimal_char_facts (c : ascii) :
  is_decimal c = true ->
  isdigit_char c = true /\ isspace c = false /\ lower_char c = c.
Proof.
  unfold is_decimal, decimal_value, isdigit_char, isspace, lower_char.
  destruct (_ && _)%N eqn:E; [|done]. intros _.
  apply andb_true_iff in E as [E1 E2]. apply N.leb_le in E1, E2.
  split; [done|]. split.
  - repeat (apply orb_false_iff; split);
      try (apply andb_false_iff; right; apply N.leb_gt; lia);
      apply N.eqb_neq; lia.
  - assert (F : ((65 <=? code c) && (code c <=? 90)
                 || (192 <=? code c) && (code c <=? 222) && negb (code c =? 215))%N
                = false).
    { apply orb_false_iff; split.
      - apply andb_false_iff; left. apply N.leb_gt. lia.
      - apply andb_false_iff; left. apply andb_false_iff; left.
        apply N.leb_gt. lia. }
    by rewrite F.
Qed.

Lemma all_chars_app (p : ascii -> bool) (a b : string) :
  all_chars p (a ++ b) = all_chars p a && all_chars p b.
Proof.
  induction a as [|x a IH]; norm_append; simpl; [done|].
  by rewrite IH, andb_assoc.
Qed.

Lemma int_digits_app (a b : string) (acc : Z) :
  int_digits acc (a ++ b) =
    match int_digits acc a with
    | Some z => int_digits z b
    | None => None
    end.
Proof.
  revert acc. induction a as [|x a IH]; intros acc; norm_append; simpl; [done|].
  destruct (decimal_value x); [apply IH | done].
Qed.

Lemma str_fuel_decimal (fuel : nat) (n : N) :
  all_chars is_decimal (str_fuel fuel n) = true.
Proof.
  revert n. induction fuel as [|f IH]; intros n; simpl; [done|].
  assert (D : forall d, is_decimal (digit_char d) = true).
  { intros d. destruct d as [|p]; [done|].
    do 4 (try destruct p as [p|p|]); reflexivity. }
  destruct (n <? 10)%N.
  - simpl. by rewrite D.
  - rewrite all_chars_app, IH. simpl. by rewrite D.
Qed.

Lemma str_fuel_nonempty (fuel : nat) (n : N) :
  nonempty (str_fuel (S fuel) n) = true.
Proof.
  simpl. destruct (n <? 10)%N; [done|].
  destruct (str_fuel fuel (n / 10)); done.
Qed.

(** Reading back what [str_fuel] has written, given fuel for every digit. *)
Lemma int_digits_str_fuel (fuel : nat) (n : N) :
  (n < 2 ^ N.of_nat fuel)%N ->
  int_digits 0 (str_fuel (S fuel) n) = Some (Z.of_N n).
Proof.
  revert n. induction fuel as [|f IH]; intros n Hn.
  - assert (n = 0%N) as -> by (cbn in Hn; lia). reflexivity.
  - change (str_fuel (S (S f)) n)
      with (if (n <? 10)%N then String (digit_char n) EmptyString
            else str_fuel (S f) (n / 10)%N
                 ++ String (digit_char (n mod 10)%N) EmptyString).
    destruct (N.ltb_spec n 10) as [L|L].
    + simpl. rewrite (digit_char_value _ L). f_equal; lia.
    + rewrite int_digits_app, IH.
      * simpl. rewrite digit_char_value by (apply N.mod_lt; lia).
        f_equal. rewrite (N.div_mod n 10) at 3 by lia. lia.
      * rewrite Nat2N.inj_succ, N.pow_succ_r' in Hn.
        apply N.Div0.div_lt_upper_bound. lia.
Qed.

Lemma int_digits_str_N (n : N) : int_digits 0 (str_N n) = Some (Z.of_N n).
Proof.
  unfold str_N. apply int_digits_str_fuel.
  rewrite N2Nat.id. apply N.size_gt.
Qed.

Lemma str_nonneg (z : Z) : 0 <= z -> str z = str_N (Z.to_N z).
Proof. intros H. unfold str. by destruct (Z.ltb_spec z 0); [lia|]. Qed.

Lemma length_append (a b : string) :
  String.length (a ++ b) = (String.length a + String.length b)%nat.
Proof. induction a as [|x a IH]; norm_append; simpl; [done | by rewrite IH]. Qed.

(** A number below [10 ^ (k + 1)] is written with at most [k + 1] digits. *)
Lemma str_fuel_length (fuel : nat) (k n : N) :
  (n < 10 ^ (k + 1))%N ->
  Z.of_nat (String.length (str_fuel fuel n)) <= Z.of_N k + 1.
Proof.
  revert k n. induction fuel as [|f IH]; intros k n Hn; simpl; [lia|].
  destruct (N.ltb_spec n 10) as [L|L]; [simpl; lia|].
  rewrite length_append. simpl.
  assert (k <> 0%N) as Hk by (intros ->; simpl in Hn; lia).
  specialize (IH (k - 1)%N (n / 10)%N).
  replace (k - 1 + 1)%N with k in IH by lia.
  replace (k + 1)%N with (N.succ k) in Hn by lia.
  rewrite N.pow_succ_r' in Hn.
  specialize (IH (N.Div0.div_lt_upper_bound _ _ _ Hn)). lia.
Qed.

Lemma str_length (z : Z) :
  0 <= z < 10 ^ INT_MAX_STR_DIGITS ->
  Z.of_nat (String.length (str z)) <= INT_MAX_STR_DIGITS.
Proof.
  intros H. rewrite str_nonneg by lia. unfold str_N.
  change INT_MAX_STR_DIGITS with (Z.of_N 4299 + 1).
  apply str_fuel_length.
  change (10 ^ (4299 + 1))%N with (Z.to_N (10 ^ INT_MAX_STR_DIGITS)).
  lia.
Qed.

(** What the code needs of the rendering [str z] of a natural number: it
    is a non-empty run of decimal digits, and [int] reads it back when it
    has no more digits than [int] takes. *)
Lemma str_digits (z : Z) :
  0 <= z ->
  nonempty (str z) = true
  /\ all_chars is_decimal (str z) = true
  /\ (z < 10 ^ INT_MAX_STR_DIGITS -> int (str z) = Ok z).
Proof.
  intros H. split; [|split].
  - rewrite (str_nonneg z H). apply str_fuel_nonempty.
  - rewrite (str_nonneg z H). apply str_fuel_decimal.
  - intros B. pose proof (str_length z (conj H B)) as Len.
    apply Z.ltb_ge in Len.
    rewrite (str_nonneg z H) in *. unfold str_N in *.
    pose proof (str_fuel_nonempty (N.to_nat (N.size (Z.to_N z))) (Z.to_N z)) as NE.
    pose proof (int_digits_str_N (Z.to_N z)) as R. unfold str_N in R.
    unfold int. destruct (str_fuel _ _); [done|].
    rewrite Len, R. f_equal. lia.
Qed.

(** *** Trimming, lowering and slicing *)

Lemma lstrip_pad (pad s : string) :
  all_chars isspace pad = true -> lstrip (pad ++ s) = lstrip s.
Proof.
  induction pad as [|x pad IH]; norm_append; simpl; [done|].
  intros [-> H]%andb_true_iff. by apply IH.
Qed.

Lemma rstrip_pad (pad : string) :
  all_chars isspace pad = true -> rstrip pad = "".
Proof.
  induction pad as [|x pad IH]; simpl; [done|].
  intros [-> H]%andb_true_iff. by rewrite IH.
Qed.

Lemma rstrip_core (a pad : string) (c : ascii) :
  isspace c = false -> all_chars isspace pad = true ->
  rstrip (a ++ String c pad) = a ++ String c "".
Proof.
  intros Hc Hpad. induction a as [|x a IH]; norm_append; simpl.
  - by rewrite (rstrip_pad _ Hpad), Hc.
  - rewrite IH. by destruct a.
Qed.

Lemma lower_app (a b : string) : lower (a ++ b) = lower a ++ lower b.
Proof. induction a as [|x a IH]; norm_append; simpl; [done | by rewrite IH]. Qed.

Lemma lower_decimal (a : string) :
  all_chars is_decimal a = true -> lower a = a.
Proof.
  induction a as [|x a IH]; simpl; [done|].
  intros [Hx H]%andb_true_iff.
  apply decimal_char_facts in Hx as (_ & _ & ->). by rewrite IH.
Qed.

Lemma isdigit_decimal (a : string) :
  nonempty a = true -> all_chars is_decimal a = true -> isdigit a = true.
Proof.
  intros NE H. unfold isdigit. destruct a as [|x a]; [done|]. clear NE.
  revert H. generalize (String x a). clear. intros s.
  induction s as [|y s IH]; simpl; [done|].
  intros [Hy H]%andb_true_iff.
  apply decimal_char_facts in Hy as (-> & _). by apply IH.
Qed.

Lemma endswith_last (a : string) (c c' : ascii) :
  endswith (a ++ String c "") (String c' "") = Ascii.eqb c c'.
Proof.
  induction a as [|x a IH]; norm_append; simpl.
  - by destruct (Ascii.eqb c c').
  - rewrite IH. destruct (Ascii.eqb x c'); [|done].
    by destruct a.
Qed.

Lemma init_snoc (a : string) (c : ascii) : init (a ++ String c "") = a.
Proof.
  induction a as [|x a IH]; norm_append; simpl; [done|].
  rewrite IH. by destruct a.
Qed.

(** The normal form of a padded [<digits><unit>] input. *)
Lemma trimmed_number (z : Z) (pad1 pad2 : string) (u : ascii) :
  0 <= z -> isspace u = false ->
  all_chars isspace pad1 = true -> all_chars isspace pad2 = true ->
  let input := pad1 ++ str z ++ String u pad2 in
  lower (strip (if nonempty input then input else "12m"))
    = str z ++ String (lower_char u) "".
Proof.
  intros Hz Hu H1 H2 input.
  destruct (str_digits z Hz) as (NE & Dec & _).
  assert (Hin : nonempty input = true).
  { subst input. destruct pad1; [|done]. norm_append. by destruct (str z). }
  rewrite Hin. subst input. unfold strip. rewrite (lstrip_pad _ _ H1).
  assert (L : lstrip (str z ++ String u pad2) = str z ++ String u pad2).
  { destruct (str z) as [|x r]; [done|]. norm_append. simpl in Dec |- *.
    apply andb_true_iff in Dec as [Dx _].
    by apply decimal_char_facts in Dx as (_ & -> & _). }
  rewrite L, (rstrip_core _ _ _ Hu H2), lower_app, (lower_decimal _ Dec).
  done.
Qed.

(** [parse_since] on a padded number of months or years. *)
Lemma parse_since_number (z : Z) (pad1 pad2 : string) (u : ascii) :
  0 <= z < 10 ^ INT_MAX_STR_DIGITS -> isspace u = false ->
  all_chars isspace pad1 = true -> all_chars isspace pad2 = true ->
  parse_since (pad1 ++ str z ++ String u pad2) =
    if Ascii.eqb (lower_char u) "m"
    then Ok (if 12 <=? z then "today 12-m" else "today " ++ str z ++ "-m")
    else if Ascii.eqb (lower_char u) "y"
    then Ok (if 5 <=? z then "today 5-y" else "today " ++ str z ++ "-y")
    else Ok "today 12-m".
Proof.
  intros [Hz Hb] Hu H1 H2. unfold parse_since.
  rewrite (trimmed_number z pad1 pad2 u Hz Hu H1 H2).
  destruct (str_digits z Hz) as (NE & Dec & I).
  rewrite !endswith_last, init_snoc, (isdigit_decimal _ NE Dec), (I Hb).
  rewrite !andb_true_r. done.
Qed.

(** X22: the clamp, for an amount that [int] takes (one of at most 4300
    digits, that is an amount below [10 ^ 4300]): for [1 <= m <= 12],
    [parse_since] maps ["{m}m"] to ["today {m}-m"], and for [m > 12] to
    ["today 12-m"]; for [1 <= y <= 5] it maps ["{y}y"] to ["today {y}-y"],
    and for [y > 5] to ["today 5-y"]; the unit may be in either case and
    the input may be surrounded by blanks. *)
Theorem parse_since_clamps (n : Z) (pad1 pad2 : string) (u : ascii) :
  n < 10 ^ INT_MAX_STR_DIGITS ->
  all_chars isspace pad1 = true -> all_chars isspace pad2 = true ->
  let input := pad1 ++ str n ++ String u pad2 in
  ((u = "m" \/ u = "M")%char ->
     (1 <= n <= 12 -> parse_since input = Ok ("today " ++ str n ++ "-m"))
     /\ (12 < n -> parse_since input = Ok "today 12-m"))
  /\ ((u = "y" \/ u = "Y")%char ->
     (1 <= n <= 5 -> parse_since input = Ok ("today " ++ str n ++ "-y"))
     /\ (5 < n -> parse_since input = Ok "today 5-y")).
Proof.
  intros Hb H1 H2 input; subst input.
  split; intros Hu; split; intros Hn;
    rewrite parse_since_number
      by (done || (split; [lia | done]) || by destruct Hu as [-> | ->]);
    destruct Hu as [-> | ->]; cbn [lower_char]; simpl Ascii.eqb; cbv iota.
  all: try (destruct (Z.leb_spec 12 n); [|done || lia]).
  all: try (destruct (Z.leb_spec 5 n); [|done || lia]).
  all: try done.
  all: try (assert (n = 12) as -> by lia; reflexivity).
  all: try (assert (n = 5) as -> by lia; reflexivity).
Qed.

Lemma parse_since_clamps_witness :
  parse_since "3m" = Ok "today 3-m"
  /\ parse_since "24m" = Ok "today 12-m"
  /\ parse_since "  2Y " = Ok "today 2-y"
  /\ parse_since "7y" = Ok "today 5-y".
Proof.
  destruct (parse_since_clamps 3 "" "" "m" eq_refl eq_refl eq_refl) as [[A _] _];
    [by left|].
  destruct (parse_since_clamps 24 "" "" "m" eq_refl eq_refl eq_refl) as [[_ B] _];
    [by left|].
  destruct (parse_since_clamps 2 "  " " " "Y" eq_refl eq_refl eq_refl) as [_ [C _]];
    [by right|].
  destruct (parse_since_clamps 7 "" "" "y" eq_refl eq_refl eq_refl) as [_ [_ D]];
    [by left|].
  split; [apply A; lia|]. split; [apply B; lia|].
  split; [apply C; lia | apply D; lia].
Defined.

(** A run of decimal digits denotes at least what has been read so far. *)
Lemma int_digits_ge (s : string) (acc z : Z) :
  int_digits acc s = Some z -> 0 <= acc -> acc <= z.
Proof.
  revert acc. induction s as [|c s IH]; cbn; intros acc.
  - intros [= <-]. lia.
  - destruct (decimal_value c) as [d|] eqn:D; [|done].
    intros H Hacc. apply decimal_value_bounds in D.
    specialize (IH _ H). lia.
Qed.

Lemma int_digits_none (s : string) (acc : Z) :
  int_digits acc s = None <-> all_chars is_decimal s = false.
Proof.
  revert acc. induction s as [|c s IH]; intros acc; simpl; [done|].
  unfold is_decimal at 1. destruct (decimal_value c); simpl; [apply IH | done].
Qed.

(** C6 (the code departs from it): the clamp does not reach every amount
    above 12 months or 5 years. [int] refuses a literal of more than 4300
    digits, so on the 4301 nines of [long_amount], the decimal form of an
    integer above 12, followed by [m], the [ValueError] of [int] leaves
    [parse_since], which does not return ["today 12-m"]; followed by [y],
    likewise instead of ["today 5-y"]. *)
Theorem parse_since_raises_on_long_amount :
  Z.of_nat (String.length long_amount) = 4301
  /\ isdigit long_amount = true
  /\ (exists n, int_digits 0 long_amount = Some n /\ 12 < n)
  /\ parse_since (long_amount ++ "m") = Raise (IntLiteralError long_amount)
  /\ parse_since (long_amount ++ "m") <> Ok "today 12-m"
  /\ parse_since (long_amount ++ "y") = Raise (IntLiteralError long_amount)
  /\ parse_since (long_amount ++ "y") <> Ok "today 5-y".
Proof.
  assert (M : parse_since (long_amount ++ "m")
              = Raise (IntLiteralError long_amount)) by (by vm_compute).
  assert (Y : parse_since (long_amount ++ "y")
              = Raise (IntLiteralError long_amount)) by (by vm_compute).
  split; [by vm_compute|]. split; [by vm_compute|]. split.
  - assert (D : all_chars is_decimal long_amount = true) by (by vm_compute).
    destruct (int_digits 0 long_amount) as [n|] eqn:E;
      [|apply int_digits_none in E; congruence].
    exists n. split; [done|].
    change long_amount
      with (String "9" (String "9" (repeat_char "9" 4299))) in E.
    change (int_digits 0 (String "9" (String "9" (repeat_char "9" 4299))))
      with (int_digits 99 (repeat_char "9" 4299)) in E.
    apply int_digits_ge in E; lia.
  - rewrite M, Y. repeat split; discriminate.
Qed.

(** The inputs the policy sends to the default, and the zero amounts it
    lets through. *)
Lemma parse_since_defaults :
  parse_since "" = Ok "today 12-m"
  /\ parse_since "bogus" = Ok "today 12-m"
  /\ parse_since "m" = Ok "today 12-m"
  /\ parse_since "-3m" = Ok "today 12-m"
  /\ parse_since "-1y" = Ok "today 12-m"
  /\ parse_since "3 m" = Ok "today 12-m"
  /\ parse_since "0m" = Ok "today 0-m"
  /\ parse_since "0y" = Ok "today 0-y".
Proof. repeat split. Qed.

(** An input without a final [m] or [y] gets the default. *)
Lemma parse_since_no_unit (s : string) :
  let t := lower (strip (if nonempty s then s else "12m")) in
  endswith t "m" = false -> endswith t "y" = false ->
  parse_since s = Ok "today 12-m".
Proof. intros t Hm Hy. unfold parse_since. fold t. by rewrite Hm, Hy. Qed.

(** An amount with a character that is no digit gets the default. *)
Lemma parse_since_no_digits (s : string) :
  let t := lower (strip (if nonempty s then s else "12m")) in
  isdigit (init t) = false -> parse_since s = Ok "today 12-m".
Proof.
  intros t H. unfold parse_since. fold t. by rewrite H, !andb_false_r.
Qed.

(** Whenever [parse_since] raises, the amount has passed [isdigit] and
    has been refused by [int]: no other step of it can fail. *)
Lemma parse_since_raises_only_in_int (s : string) (e : exn) :
  parse_since s = Raise e ->
  let t := lower (strip (if nonempty s then s else "12m")) in
  isdigit (init t) = true /\ int (init t) = Raise e.
Proof.
  unfold parse_since. set (t := lower _). cbv zeta.
  destruct (endswith t "m" && isdigit (init t)) eqn:G1.
  { apply andb_true_iff in G1 as [_ G1].
    destruct (int (init t)); [done|]. by intros [= ->]. }
  destruct (endswith t "y" && isdigit (init t)) eqn:G2; [|done].
  apply andb_true_iff in G2 as [_ G2].
  destruct (int (init t)); [done|]. by intros [= ->].
Qed.

(** C7 (the code departs from it): the amount ["³"] is no integer, [int]
    refuses it, and yet ["³y"] is not sent to the default: [str.isdigit]
    accepts the superscript, so [int] is called and its error escapes. *)
Theorem parse_since_unparsable_not_defaulted :
  let s := String superscript_three "y" in
  int (init s) = Raise (IntLiteralError (String superscript_three ""))
  /\ parse_since s = Raise (IntLiteralError (String superscript_three ""))
  /\ parse_since s <> Ok "today 12-m".
Proof. repeat split. discriminate. Qed.

(** C8 (the code departs from it): [parse_since] is not total; on ["²m"]
    it raises the [ValueError] of [int("²")]. *)
Theorem parse_since_raises_on_superscript :
  parse_since (String superscript_two "m")
    = Raise (IntLiteralError (String superscript_two ""))
  /\ forall tf, parse_since (String superscript_two "m") <> Ok tf.
Proof. split; [reflexivity | discriminate]. Qed.

(** ** BatchAggregator *)

(** *** Computations that leave the cache alone *)

Lemma cache_free_ret {A} (a : A) : cache_free (ret a).
Proof. done. Qed.

Lemma cache_free_raise {A} (e : exn) : cache_free (@raise A e).
Proof. done. Qed.

Lemma cache_free_lift {A} (r : result A) : cache_free (lift r).
Proof. done. Qed.

Lemma cache_free_bind {A B} (m : M A) (k : A -> M B) :
  cache_free m -> (forall a, cache_free (k a)) -> cache_free (bind m k).
Proof.
  intros Hm Hk w C. unfold bind. rewrite Hm.
  destruct (m w) as [[a|e] w']; cbn [fst snd]; [apply Hk | done].
Qed.

Lemma cache_free_try_except {A} (m : M A) (h : exn -> M A) :
  cache_free m -> (forall e, cache_free (h e)) -> cache_free (try_except m h).
Proof.
  intros Hm Hh w C. unfold try_except. rewrite Hm.
  destruct (m w) as [[a|e] w']; cbn [fst snd]; [done | apply Hh].
Qed.

Lemma cache_free_request {A} (c : Call) (answer : list Call -> Q * result A) :
  cache_free (request c answer).
Proof.
  intros w C. unfold request, set_cache; cbn [calls clock CACHE].
  by destruct (answer (calls w)).
Qed.

Create HintDb cache_free.
#[export] Hint Resolve cache_free_ret cache_free_raise cache_free_lift
  cache_free_request : cache_free.

Section Batch.
Variable pytrends : Provider.

(** One iteration never raises: it logs its request and absorbs the
    provider's answer, whatever it is. *)
Lemma batch_step_run (tf geo : string) (st : batch_state) (term : string)
    (w : World) :
  batch_step pytrends tf geo st term w =
    (Ok (absorb st term (snd (interest_over_time pytrends (calls w) term tf geo))),
     after_fetch term tf geo
                 (fst (interest_over_time pytrends (calls w) term tf geo)) w).
Proof.
  unfold batch_step, try_except, bind, fetch_interest, request, absorb,
    after_fetch, ret, lift, series_entry, cast_column.
  destruct (interest_over_time pytrends (calls w) term tf geo) as [d [df|e]];
    cbn [fst snd]; [|done].
  destruct (empty df || negb (has_column term df)); [done|].
  by destruct (astype_int _).
Qed.

(** A seed whose fetch raises, or yields an empty frame or one without
    the term, leaves the loop state as it was. *)
Lemma absorb_skip (st : batch_state) (term : string)
    (r : result (DataFrame number)) :
  match r with
  | Raise _ => True
  | Ok df => empty df || negb (has_column term df) = true
  end ->
  absorb st term r = st.
Proof. destruct r as [df|e]; cbn; [by intros -> | done]. Qed.

(** What one step adds to the series: nothing, or the entry of its term. *)
Lemma absorb_series (st : batch_state) (term : string)
    (r : result (DataFrame number)) :
  snd (absorb st term r) = snd st
  \/ exists vals, snd (absorb st term r) = (snd st ++ [series_entry term vals])%list.
Proof.
  destruct r as [df|e]; cbn; [|by left].
  destruct (empty df || negb (has_column term df)); [by left|].
  destruct (cast_column term df) as [vals|]; [right; by eexists | by left].
Qed.

(** The loop returns, leaves the cache alone, asks the provider once per
    term in order, and adds to the series entries of some of the terms,
    in their order. *)
Lemma batch_loop_run (tf geo : string) (terms : list string) :
  forall (st : batch_state) (w : World),
  exists st' w' picked added,
    batch_loop pytrends tf geo terms st w = (Ok st', w')
    /\ CACHE w' = CACHE w
    /\ calls w' = (calls w ++ map (fun t => InterestOverTime t tf geo) terms)%list
    /\ snd st' = (snd st ++ added)%list
    /\ picked `sublist_of` terms
    /\ Forall2 (fun e t => exists vals, e = series_entry t vals) added picked.
Proof.
  induction terms as [|term rest IH]; intros st w.
  - exists st, w, [], []. cbn [batch_loop ret map].
    rewrite !app_nil_r. repeat split; constructor.
  - cbn [batch_loop]. unfold bind at 1. rewrite batch_step_run.
    set (r := snd (interest_over_time pytrends (calls w) term tf geo)).
    set (w1 := after_fetch _ _ _ _ w).
    destruct (IH (absorb st term r) w1) as (st' & w' & picked & added & R & C & L & S & P & F).
    destruct (absorb_series st term r) as [E | [vals E]].
    + exists st', w', picked, added. rewrite R, C, L, S, E.
      subst w1; cbn [after_fetch CACHE calls map]. rewrite <- app_assoc.
      repeat split; [by apply sublist_cons | done].
    + exists st', w', (term :: picked), (series_entry term vals :: added).
      rewrite R, C, L, S, E.
      subst w1; cbn [after_fetch CACHE calls map]. rewrite <- !app_assoc.
      repeat split; [by apply sublist_skip|].
      constructor; [by eexists | done].
Qed.

Lemma cache_free_batch_step (tf geo : string) (st : batch_state) (term : string) :
  cache_free (batch_step pytrends tf geo st term).
Proof.
  unfold batch_step. apply cache_free_try_except; [|auto with cache_free].
  apply cache_free_bind; [apply cache_free_request|].
  intros df. destruct (empty df || negb (has_column term df));
    [auto with cache_free|].
  apply cache_free_try_except; [|auto with cache_free].
  apply cache_free_bind; auto with cache_free.
Qed.

Lemma cache_free_batch_loop (tf geo : string) (terms : list string) :
  forall st, cache_free (batch_loop pytrends tf geo terms st).
Proof.
  induction terms as [|term rest IH]; intros st; cbn [batch_loop].
  - auto with cache_free.
  - apply cache_free_bind; [apply cache_free_batch_step | apply IH].
Qed.

End Batch.

Section BatchClaims.
Variable pytrends : Provider.

(** With a window that translates, the batch returns a result. *)
Lemma batch_returns (p : BatchInterestIn) (tf : string) (w : World) :
  parse_since (since p) = Ok tf ->
  exists st w',
    batch_loop pytrends tf (geo p) (firstn 5 (seeds p)) (None, []) w = (Ok st, w')
    /\ api_batch_interest pytrends p w =
         (Ok (VDict [("labels", VList (map VStr (default [] (fst st))));
                     ("series", VList (snd st))]), w').
Proof.
  intros P.
  destruct (batch_loop_run pytrends tf (geo p) (firstn 5 (seeds p)) (None, []) w)
    as (st & w' & _ & _ & R & _).
  exists st, w'. split; [done|].
  unfold api_batch_interest, bind, lift. rewrite P, R. unfold ret.
  by destruct (fst st).
Qed.

(** When every seed fails or comes back empty, the loop state stays put. *)
Lemma batch_loop_all_skipped (tf geo : string) (terms : list string) :
  (forall h term, term ∈ terms ->
     match snd (interest_over_time pytrends h term tf geo) with
     | Raise _ => True
     | Ok df => empty df || negb (has_column term df) = true
     end) ->
  forall st w, fst (batch_loop pytrends tf geo terms st w) = Ok st.
Proof.
  induction terms as [|term rest IH]; intros H st w; [done|].
  cbn [batch_loop]. unfold bind at 1. rewrite batch_step_run.
  rewrite absorb_skip by (apply H; left).
  apply IH. intros h t Ht. apply H. by right.
Qed.

(** The batch tolerates every failure of a fetch: with a window that
    translates it always returns, and when every seed fails or is empty
    it returns [{"labels": [], "series": []}]. *)
Lemma batch_tolerates_fetch_failures (p : BatchInterestIn) (tf : string)
    (w : World) :
  parse_since (since p) = Ok tf ->
  (exists out, fst (api_batch_interest pytrends p w) = Ok out)
  /\ ((forall h term, term ∈ firstn 5 (seeds p) ->
         match snd (interest_over_time pytrends h term tf (geo p)) with
         | Raise _ => True
         | Ok df => empty df || negb (has_column term df) = true
         end) ->
      fst (api_batch_interest pytrends p w)
        = Ok (VDict [("labels", VList []); ("series", VList [])])).
Proof.
  intros P. destruct (batch_returns p tf w P) as (st & w' & R & E).
  split; [rewrite E; by eexists|].
  intros H. rewrite E. cbn [fst].
  pose proof (batch_loop_all_skipped tf (geo p) _ H (None, []) w) as S.
  rewrite R in S. cbn in S. by injection S as ->.
Qed.

(** C3: with more than five seeds the batch works on the first five
    only: any seed list with the same first five runs alike, the provider
    is asked once for each of the first five in order (and not at all
    when the window does not translate), and the series of a result
    holds entries of some of the first five seeds, in their order. *)
Theorem batch_first_five (p : BatchInterestIn) (w : World) :
  (5 < length (seeds p))%nat ->
  let r := api_batch_interest pytrends p w in
  (forall seeds', firstn 5 seeds' = firstn 5 (seeds p) ->
     api_batch_interest pytrends (mkBatch (geo p) (since p) seeds') w = r)
  /\ (forall tf, parse_since (since p) = Ok tf ->
        calls (snd r) =
          (calls w ++ map (fun t => InterestOverTime t tf (geo p))
                          (firstn 5 (seeds p)))%list
        /\ length (calls (snd r)) = (length (calls w) + 5)%nat)
  /\ (forall e, parse_since (since p) = Raise e -> calls (snd r) = calls w)
  /\ (forall out, fst r = Ok out ->
        exists labels series picked,
          out = VDict [("labels", VList labels); ("series", VList series)]
          /\ picked `sublist_of` firstn 5 (seeds p)
          /\ Forall2 (fun e t => exists vals, e = series_entry t vals)
                     series picked).
Proof.
  intros Hlen r. subst r. split; [|split; [|split]].
  - intros seeds' E. unfold api_batch_interest. cbn [seeds geo since].
    by rewrite E.
  - intros tf P.
    destruct (batch_loop_run pytrends tf (geo p) (firstn 5 (seeds p)) (None, []) w)
      as (st & w' & picked & added & R & _ & L & _).
    destruct (batch_returns p tf w P) as (st2 & w2 & R2 & E).
    rewrite R in R2. injection R2 as <- <-. rewrite E. cbn [snd].
    split; [done|]. rewrite L, length_app, length_map, length_firstn. lia.
  - intros e P. unfold api_batch_interest, bind, lift. by rewrite P.
  - intros out. unfold api_batch_interest, bind, lift.
    destruct (parse_since (since p)) as [tf|e]; [|done].
    destruct (batch_loop_run pytrends tf (geo p) (firstn 5 (seeds p)) (None, []) w)
      as (st & w' & picked & added & R & _ & _ & S & Sub & F).
    rewrite R. cbn [ret fst]. intros [= <-].
    eexists _, _, picked. split; [done|]. split; [done|].
    by rewrite S.
Qed.

(** C4 (the code departs from it): the batch does fail as a whole. The
    window is translated before the loop and outside its [try], so with
    [since = "¹m"] the [ValueError] of [int("¹")] ends the request
    before any seed is fetched, whatever the seeds are. *)
Theorem batch_fails_on_superscript (geo : string) (seeds : list string)
    (w : World) :
  api_batch_interest pytrends
      (mkBatch geo (String superscript_one "m") seeds) w
    = (Raise (IntLiteralError (String superscript_one "")), w).
Proof. reflexivity. Qed.

(** C5: the batch neither reads nor writes the cache: the cache it ends
    with is the one it started with, and run on any other cache it gives
    the same outcome and makes the same provider requests. *)
Theorem batch_leaves_cache_alone (p : BatchInterestIn) :
  (forall w, CACHE (snd (api_batch_interest pytrends p w)) = CACHE w)
  /\ cache_free (api_batch_interest pytrends p)
  /\ (forall w C,
        fst (api_batch_interest pytrends p (set_cache C w))
          = fst (api_batch_interest pytrends p w)
        /\ calls (snd (api_batch_interest pytrends p (set_cache C w)))
          = calls (snd (api_batch_interest pytrends p w))).
Proof.
  assert (F : cache_free (api_batch_interest pytrends p)).
  { unfold api_batch_interest.
    apply cache_free_bind; [auto with cache_free|]. intros tf.
    apply cache_free_bind; [apply cache_free_batch_loop|].
    auto with cache_free. }
  split; [|split; [done|]].
  - intros w. pose proof (F w (CACHE w)) as E.
    replace (set_cache (CACHE w) w) with w in E by by destruct w.
    by rewrite E at 1.
  - intros w C. by rewrite F.
Qed.

End BatchClaims.

Lemma batch_first_five_witness :
  calls (snd (api_batch_interest sample_provider seven_seeds empty_world))
  = map (fun t => InterestOverTime t "today 3-m" "CZ") ["a"; "bad"; "c"; "d"; "e"].
Proof.
  destruct (batch_first_five sample_provider seven_seeds empty_world)
    as (_ & H & _); [cbn; lia|].
  destruct (H "today 3-m") as [E _]; [reflexivity|].
  exact E.
Defined.

(** ** ResponseNormalizer *)

Lemma zip_records_lookup (qs vs : list scalar) (i : nat) (q v : scalar) :
  qs !! i = Some q -> vs !! i = Some v ->
  zip_records qs vs !! i = Some (record q v).
Proof.
  revert vs i. induction qs as [|q0 qs IH]; intros [|v0 vs] [|i]; cbn; try done.
  - by intros [= ->] [= ->].
  - apply IH.
Qed.

Lemma zip_records_length (qs vs : list scalar) :
  length (zip_records qs vs) = min (length qs) (length vs).
Proof.
  revert vs. induction qs as [|q qs IH]; intros [|v vs]; cbn; try done.
  by rewrite IH.
Qed.

(** What [records] returns: one [{query, value}] dict per row, a missing
    cell replaced by 0. *)
Lemma records_ok (df : DataFrame scalar) (out : pyval) :
  records df = Ok out ->
  exists qs vs,
    column "query" (columns df) = Some qs
    /\ column "value" (columns df) = Some vs
    /\ out = VList (zip_records (fillna (SInt 0) qs) (fillna (SInt 0) vs))
    /\ length (zip_records (fillna (SInt 0) qs) (fillna (SInt 0) vs))
       = min (length qs) (length vs)
    /\ forall i q v, qs !! i = Some q -> vs !! i = Some v ->
         zip_records (fillna (SInt 0) qs) (fillna (SInt 0) vs) !! i
         = Some (VDict [("query", match q with
                                  | Some x => pyval_of_scalar x
                                  | None => VInt 0
                                  end);
                        ("value", match v with
                                  | Some x => pyval_of_scalar x
                                  | None => VInt 0
                                  end)]).
Proof.
  unfold records.
  destruct (column "query" (columns df)) as [qs|],
           (column "value" (columns df)) as [vs|]; try done.
  intros [= <-]. exists qs, vs. split; [done|]. split; [done|]. split; [done|].
  split.
  - rewrite zip_records_length. unfold fillna. by rewrite !length_map.
  - intros i q v Hq Hv.
    rewrite (zip_records_lookup _ _ i (default (SInt 0) q) (default (SInt 0) v)).
    + by destruct q, v.
    + unfold fillna. rewrite list_lookup_fmap, Hq. by destruct q.
    + unfold fillna. rewrite list_lookup_fmap, Hv. by destruct v.
Qed.

Lemma records_total (df : DataFrame scalar) :
  has_column "query" df = true -> has_column "value" df = true ->
  exists l, records df = Ok (VList l).
Proof.
  unfold has_column, records.
  destruct (column "query" (columns df)), (column "value" (columns df));
    try done.
  intros _ _. by eexists.
Qed.

(** One update of [out]: the field [name] becomes the records of the
    supplied frame, or stays as it is when none was supplied. *)
Lemma fill_block_ok (name : string) (block : gmap string BlockEntry)
    (out out' : list (string * pyval)) :
  fill_block name block out = Ok out' ->
  match supplied name block with
  | Some df => exists recs, records df = Ok recs /\ out' = dict_set name recs out
  | None => out' = out
  end.
Proof.
  unfold fill_block, supplied.
  destruct (block !! name) as [[df|]|]; try by intros [= <-].
  destruct (records df) as [recs|e]; [|done].
  intros [= <-]. by eexists.
Qed.

(** C9: a normalised related block always has the two fields ["top"] and
    ["rising"], each a list. For a frame the provider supplied under that
    name the list has one record per row, and the record of row [i] is the
    dict [{"query": q, "value": v}] of the two cells of that row, a missing
    cell replaced by 0; when the provider supplied no frame the list is
    empty. Normalisation returns whenever the supplied frames have their
    [query] and [value] columns; and a response with a top block only
    normalises to [{top: [...], rising: []}]. *)
Theorem related_always_both_fields (kw : string) (rq : RelatedResponse) :
  let block := block_of kw rq in
  let part name l :=
    match supplied name block with
    | Some df =>
        exists qs vs,
          column "query" (columns df) = Some qs
          /\ column "value" (columns df) = Some vs
          /\ l = zip_records (fillna (SInt 0) qs) (fillna (SInt 0) vs)
          /\ length l = min (length qs) (length vs)
          /\ forall i q v, qs !! i = Some q -> vs !! i = Some v ->
               l !! i
               = Some (VDict [("query", match q with
                                        | Some (SStr x) => VStr x
                                        | Some (SInt z) => VInt z
                                        | None => VInt 0
                                        end);
                              ("value", match v with
                                        | Some (SStr x) => VStr x
                                        | Some (SInt z) => VInt z
                                        | None => VInt 0
                                        end)])
    | None => l = []
    end in
  (forall out, normalize_related kw rq = Ok out ->
     exists top rising,
       out = VDict [("top", VList top); ("rising", VList rising)]
       /\ dict_get "top" [("top", VList top); ("rising", VList rising)]
          = Some (VList top)
       /\ dict_get "rising" [("top", VList top); ("rising", VList rising)]
          = Some (VList rising)
       /\ part "top" top /\ part "rising" rising)
  /\ ((forall name df, supplied name block = Some df ->
         has_column "query" df = true /\ has_column "value" df = true) ->
      exists out, normalize_related kw rq = Ok out)
  /\ (forall df recs,
        supplied "top" block = Some df -> supplied "rising" block = None ->
        records df = Ok recs ->
        normalize_related kw rq = Ok (VDict [("top", recs); ("rising", VList [])])).
Proof.
  intros block part. subst part.
  unfold normalize_related. fold (block_of kw rq). fold block.
  unfold fill_block, supplied.
  assert (P : forall df recs, records df = Ok recs ->
            exists l, recs = VList l /\
              exists qs vs,
                column "query" (columns df) = Some qs
                /\ column "value" (columns df) = Some vs
                /\ l = zip_records (fillna (SInt 0) qs) (fillna (SInt 0) vs)
                /\ length l = min (length qs) (length vs)
                /\ forall i q v, qs !! i = Some q -> vs !! i = Some v ->
                     l !! i
                     = Some (VDict [("query", match q with
                                              | Some (SStr x) => VStr x
                                              | Some (SInt z) => VInt z
                                              | None => VInt 0
                                              end);
                                    ("value", match v with
                                              | Some (SStr x) => VStr x
                                              | Some (SInt z) => VInt z
                                              | None => VInt 0
                                              end)])).
  { intros df recs H.
    apply records_ok in H as (qs & vs & Hq & Hv & -> & Len & Rows).
    eexists. split; [done|]. exists qs, vs. repeat (split; [done|]).
    intros i q v Hi Hj. rewrite (Rows i q v Hi Hj).
    by destruct q as [[]|], v as [[]|]. }
  split; [|split].
  - intros out.
    destruct (block !! "top") as [[dt|]|];
      [destruct (records dt) as [rt|] eqn:Rt; [|done] | |];
      (destruct (block !! "rising") as [[dr|]|];
        [destruct (records dr) as [rr|] eqn:Rr; [|done] | |]);
      intros [= <-];
      repeat match goal with
        | H : records _ = Ok _ |- _ => apply P in H as (? & -> & ?)
        end;
      cbn [dict_set String.eqb Ascii.eqb Bool.eqb];
      eexists _, _; (split; [reflexivity|]);
      (split; [reflexivity|]); (split; [reflexivity|]);
      split; done.
  - intros WF.
    assert (T : forall name df, block !! name = Some (BFrame df) ->
                exists l, records df = Ok (VList l)).
    { intros name df H. specialize (WF name df). rewrite H in WF.
      destruct (WF eq_refl). by apply records_total. }
    destruct (block !! "top") as [[dt|]|] eqn:Et;
      [destruct (T _ _ Et) as [lt ->] | |];
      (destruct (block !! "rising") as [[dr|]|] eqn:Er;
        [destruct (T _ _ Er) as [lr ->] | |]);
      by eexists.
  - intros df recs.
    destruct (block !! "top") as [[dt|]|]; try done. intros [= ->].
    destruct (block !! "rising") as [[dr|]|]; try done; intros _ ->; done.
Qed.

Lemma related_always_both_fields_witness :
  let rq := RQDict {[ "kw" := {[ "top" := BFrame sample_top ]} ]} in
  normalize_related "kw" rq
  = Ok (VDict [("top", VList [VDict [("query", VStr "x"); ("value", VInt 100)];
                              VDict [("query", VStr "y"); ("value", VInt 0)]]);
               ("rising", VList [])])
  /\ (forall top rising,
        normalize_related "kw" rq
        = Ok (VDict [("top", VList top); ("rising", VList rising)]) ->
        top !! 1%nat = Some (VDict [("query", VStr "y"); ("value", VInt 0)])
        /\ length top = 2%nat /\ rising = []).
Proof.
  intros rq.
  destruct (related_always_both_fields "kw" rq) as (A & _ & H).
  split; [apply (H sample_top); reflexivity|].
  intros top rising E.
  destruct (A _ E) as (top' & rising' & [= <- <-] & _ & _ & T & R).
  destruct T as (qs & vs & [= <-] & [= <-] & _ & Len & Rows).
  split; [|split; [exact Len | exact R]].
  exact (Rows 1%nat (Some (SStr "y")) None eq_refl eq_refl).
Defined.

(** ** Cache hits of the endpoints *)

Lemma cache_blind_ret {A} (a : A) : cache_blind (ret a).
Proof. by intros w1 w2 H. Qed.

Lemma cache_blind_raise {A} (e : exn) : cache_blind (@raise A e).
Proof. by intros w1 w2 H. Qed.

Lemma cache_blind_lift {A} (r : result A) : cache_blind (lift r).
Proof. by intros w1 w2 H. Qed.

Lemma cache_blind_bind {A B} (m : M A) (k : A -> M B) :
  cache_blind m -> (forall a, cache_blind (k a)) -> cache_blind (bind m k).
Proof.
  intros Hm Hk w1 w2 H. unfold bind. destruct (Hm w1 w2 H) as [E S].
  destruct (m w1) as [[a|e] w1'], (m w2) as [[a'|e'] w2'];
    cbn [fst snd] in *; try done.
  - injection E as <-. by apply Hk.
  - by injection E as <-.
Qed.

Lemma cache_blind_try_except {A} (m : M A) (h : exn -> M A) :
  cache_blind m -> (forall e, cache_blind (h e)) -> cache_blind (try_except m h).
Proof.
  intros Hm Hh w1 w2 H. unfold try_except. destruct (Hm w1 w2 H) as [E S].
  destruct (m w1) as [[a|e] w1'], (m w2) as [[a'|e'] w2'];
    cbn [fst snd] in *; try done.
  injection E as <-. by apply Hh.
Qed.

Lemma cache_blind_request {A} (c : Call) (answer : list Call -> Q * result A) :
  cache_blind (request c answer).
Proof.
  intros w1 w2 [Hc Hl]. unfold request. rewrite Hl.
  destruct (answer (calls w2)) as [d r]. cbn. split; [done|].
  split; cbn; by rewrite ?Hc, ?Hl.
Qed.

Lemma cache_blind_cache_set (k : string) (v : pyval) (t : option Z) :
  cache_blind (cache_set k v t).
Proof. intros w1 w2 [Hc Hl]. by cbn. Qed.

Ltac blind :=
  unfold bad_gateway, fetch_trending, fetch_interest, fetch_related;
  cbv zeta;
  repeat first
    [ apply cache_blind_ret | apply cache_blind_raise | apply cache_blind_lift
    | apply cache_blind_request | apply cache_blind_cache_set
    | apply cache_blind_bind | apply cache_blind_try_except
    | progress cbv zeta
    | match goal with
      | |- forall _, cache_blind _ => intro
      | |- cache_blind (if ?b then _ else _) => destruct b
      end ].

(** A lookup of an entry within its ttl returns its data and changes
    nothing. *)
Lemma cache_get_fresh (k : string) (item : Item) (w : World) :
  CACHE w !! k = Some item -> fresh item w ->
  cache_get k w = (Ok (data item), w).
Proof. unfold fresh, cache_get. by intros -> ->. Qed.

Lemma same_outside_delete (k : string) (w : World) :
  same_outside w (set_cache (delete k (CACHE w)) w).
Proof. done. Qed.

Lemma bind_run {A B} (m : M A) (k : A -> M B) (w w' : World) (a : A) :
  m w = (Ok a, w') -> bind m k w = k a w'.
Proof. intros H. unfold bind. by rewrite H. Qed.

Section CacheHits.
Variable pytrends : Provider.

(** C10: an entry within its ttl is served only when its data is truthy.
    For each cached endpoint: with truthy data the endpoint returns the
    cached value and asks the provider nothing; with falsy data it makes
    one fresh provider request and returns what it would return had the
    entry not been there. *)
Theorem cached_entry_served_only_if_truthy (w : World) (item : Item)
    (kw geo since tf : string) :
  fresh item w ->
  parse_since since = Ok tf ->
  let served (key : string) (c : Call) (wrap : pyval -> pyval)
             (api : M pyval) : Prop :=
    CACHE w !! key = Some item ->
    (truthy (data item) = true -> api w = (Ok (wrap (data item)), w))
    /\ (truthy (data item) = false ->
        calls (snd (api w)) = (calls w ++ [c])%list
        /\ fst (api w) = fst (api (set_cache (delete key (CACHE w)) w))) in
  served (trending_key geo) (TrendingSearches (lower geo))
         (fun v => VDict [("items", v)]) (api_trending pytrends geo)
  /\ served (interest_key kw geo tf) (InterestOverTime kw tf geo)
            (fun v => v) (api_interest pytrends kw geo since)
  /\ served (related_key kw geo tf) (RelatedQueries kw tf geo)
            (fun v => v) (api_related pytrends kw geo since).
Proof.
  intros F P served. subst served. cbv beta.
  assert (HP : forall w0, lift (parse_since since) w0 = (Ok tf, w0)).
  { intros w0. unfold lift. by rewrite P. }
  split; [|split]; intros L;
    pose proof (cache_get_fresh _ _ _ L F) as Hit;
    match type of L with
    | _ !! ?k = _ =>
        pose proof (cache_get_absent k (set_cache (delete k (CACHE w)) w)
                      (lookup_delete_eq (CACHE w) k)) as Miss
    end;
    (split; intros T).
  - unfold api_trending. rewrite (bind_run _ _ _ _ _ Hit). by rewrite T.
  - unfold api_trending.
    rewrite (bind_run _ _ _ _ _ Hit), (bind_run _ _ _ _ _ Miss), T.
    cbn [truthy]. split.
    + unfold bind, try_except, fetch_trending, request, lift, cache_set, ret,
        bad_gateway, raise.
      destruct (trending_searches pytrends (calls w) (lower geo)) as [d [df|e]];
        [destruct (trending_items df)|]; done.
    + match goal with |- fst (?m _) = _ => assert (B : cache_blind m) by blind end.
      apply (B _ _ (same_outside_delete _ w)).
  - unfold api_interest. rewrite (bind_run _ _ _ _ _ (HP w)).
    rewrite (bind_run _ _ _ _ _ Hit). by rewrite T.
  - unfold api_interest.
    rewrite (bind_run _ _ _ _ _ (HP w)), (bind_run _ _ _ _ _ (HP _)).
    rewrite (bind_run _ _ _ _ _ Hit), (bind_run _ _ _ _ _ Miss), T.
    cbn [truthy]. split.
    + unfold bind, try_except, fetch_interest, request, lift, cache_set, ret,
        bad_gateway, raise.
      destruct (interest_over_time pytrends (calls w) kw tf geo) as [d [df|e]];
        [destruct (empty df || negb (has_column kw df));
           [|destruct (interest_payload kw df)]|]; done.
    + match goal with |- fst (?m _) = _ => assert (B : cache_blind m) by blind end.
      apply (B _ _ (same_outside_delete _ w)).
  - unfold api_related. rewrite (bind_run _ _ _ _ _ (HP w)).
    rewrite (bind_run _ _ _ _ _ Hit). by rewrite T.
  - unfold api_related.
    rewrite (bind_run _ _ _ _ _ (HP w)), (bind_run _ _ _ _ _ (HP _)).
    rewrite (bind_run _ _ _ _ _ Hit), (bind_run _ _ _ _ _ Miss), T.
    cbn [truthy]. split.
    + unfold bind, try_except, fetch_related, request, lift, cache_set, ret,
        bad_gateway, raise.
      destruct (related_queries pytrends (calls w) kw tf geo) as [d [rq|e]];
        [destruct (normalize_related kw rq)|]; done.
    + match goal with |- fst (?m _) = _ => assert (B : cache_blind m) by blind end.
      apply (B _ _ (same_outside_delete _ w)).
Qed.

End CacheHits.

Lemma cached_entry_served_only_if_truthy_witness :
  let w := mkWorld {[ "trending:CZ" := mkItem (VList []) 0%Q (Some 1800) ]}
                   10%Q [] in
  calls (snd (api_trending sample_provider "CZ" w)) = [TrendingSearches "cz"]
  /\ fst (api_trending sample_provider "CZ" w)
     = fst (api_trending sample_provider "CZ"
              (set_cache (delete "trending:CZ" (CACHE w)) w)).
Proof.
  intros w.
  destruct (cached_entry_served_only_if_truthy sample_provider w
              (mkItem (VList []) 0%Q (Some 1800)) "kw" "CZ" "3m" "today 3-m")
    as [H _]; [reflexivity | reflexivity |].
  destruct H as [_ H]; [reflexivity|].
  apply H. reflexivity.
Defined.

(** The two cache operations, for contrast: a lookup depends on the cache
    and a store changes it, so neither is [cache_free]. *)
Lemma cache_operations_not_cache_free :
  ~ cache_free (cache_get "k") /\ ~ cache_free (cache_set "k" (VInt 1) None).
Proof.
  split; intros H.
  - specialize (H empty_world {[ "k" := mkItem (VInt 1) 0%Q None ]}).
    vm_compute in H. discriminate.
  - specialize (H empty_world ∅).
    apply (f_equal (fun r => CACHE (snd r) !! "k")) in H.
    vm_compute in H. discriminate.
Qed.

(** * Further properties of the code *)

(** ** CacheStore, continued *)

(** X1: an entry is served up to and including the moment its ttl has
    elapsed, and no longer: for a stored value other than [None], the
    lookup [d] time units after [cache_set(k, v, t)] returns [v] exactly
    when [d] is at most the effective ttl ([t], or 1200 when [t] is
    omitted or 0). *)
Theorem cache_entry_served_until_ttl (w : World) (k : string) (v : pyval)
    (t : option Z) (d : Q) :
  v <> VNone ->
  fst (cache_get k (elapse d (snd (cache_set k v t w)))) = Ok v
  <-> (d <= inject_Z (ttl_or_default t))%Q.
Proof.
  intros Hv. rewrite cache_get_after_set.
  destruct (Qgtb d (inject_Z (ttl_or_default t))) eqn:G; cbn [fst].
  - apply Qgtb_true in G. split.
    + intros [= E]. by destruct Hv.
    + intros H. exfalso. by apply (Qlt_not_le _ _ G).
  - apply Qgtb_false in G. by split.
Qed.

Lemma cache_entry_served_until_ttl_witness :
  fst (cache_get "k" (elapse 1200 (snd (cache_set "k" (VInt 7) None empty_world))))
  = Ok (VInt 7).
Proof.
  apply (cache_entry_served_until_ttl empty_world "k" (VInt 7) None 1200).
  - discriminate.
  - vm_compute. discriminate.
Defined.

(** X2: [cache_set] overwrites: storing under a key that already has an
    entry leaves the world exactly as if the earlier entry had never been
    stored; the value, the timestamp and the ttl are those of the last
    store. *)
Theorem cache_set_overwrites (w : World) (k : string) (v1 v2 : pyval)
    (t1 t2 : option Z) (d : Q) :
  snd (cache_set k v2 t2 (elapse d (snd (cache_set k v1 t1 w))))
  = snd (cache_set k v2 t2 (elapse d w)).
Proof.
  unfold cache_set, elapse; cbn [snd CACHE clock calls].
  by rewrite insert_insert_eq.
Qed.

(** X3: the cache operations on one key leave every other key alone: a
    store under [k] and a lookup of [k] (even one that evicts) do not
    change what is held under [k'], and a lookup never adds an entry. *)
Theorem cache_other_keys_untouched (w : World) (k k' : string) (v : pyval)
    (t : option Z) :
  k <> k' ->
  CACHE (snd (cache_set k v t w)) !! k' = CACHE w !! k'
  /\ CACHE (snd (cache_get k w)) !! k' = CACHE w !! k'
  /\ CACHE (snd (cache_get k w)) ⊆ CACHE w.
Proof.
  intros Hk. split; [|split].
  - unfold cache_set; cbn [snd CACHE]. by rewrite lookup_insert_ne.
  - unfold cache_get. destruct (CACHE w !! k) as [item|]; [|done].
    destruct (Qgtb _ _); cbn [snd CACHE]; [|done]. by rewrite lookup_delete_ne.
  - unfold cache_get. destruct (CACHE w !! k) as [item|]; [|done].
    destruct (Qgtb _ _); cbn [snd CACHE]; [|done]. apply delete_subseteq.
Qed.

Lemma cache_other_keys_untouched_witness :
  let w := snd (cache_set "b" (VInt 2) (Some 5) empty_world) in
  CACHE (snd (cache_set "a" (VInt 1) None w)) !! "b" = CACHE w !! "b"
  /\ CACHE (snd (cache_get "a" w)) !! "b" = CACHE w !! "b"
  /\ CACHE (snd (cache_get "a" w)) ⊆ CACHE w.
Proof.
  intros w. apply (cache_other_keys_untouched w "a" "b" (VInt 1) None).
  discriminate.
Defined.

(** ** WindowTranslator, continued *)

(** X4: whenever [parse_since] returns, its token is one of the nineteen
    tokens ["today k-m"] with [0 <= k <= 12] and ["today k-y"] with
    [0 <= k <= 5]. *)
Theorem parse_since_range (s tf : string) :
  parse_since s = Ok tf -> tf ∈ window_tokens.
Proof. intros H. apply list_elem_of_In. by apply parse_since_tokens in H. Qed.

Lemma parse_since_range_witness : "today 12-m" ∈ window_tokens.
Proof. apply (parse_since_range "999999m"). reflexivity. Defined.

Lemma rstrip_app_pad (s pad : string) :
  all_chars isspace pad = true -> rstrip (s ++ pad) = rstrip s.
Proof.
  intros H. induction s as [|c s IH]; norm_append.
  - by apply rstrip_pad.
  - simpl. by rewrite IH.
Qed.

Lemma lstrip_app (s p : string) :
  lstrip (s ++ p) = if all_chars isspace s then lstrip p else lstrip s ++ p.
Proof.
  induction s as [|c s IH]; norm_append; simpl; [done|].
  destruct (isspace c); simpl; [apply IH | done].
Qed.

Lemma lstrip_all_space (s : string) :
  all_chars isspace s = true -> lstrip s = "".
Proof.
  induction s as [|c s IH]; simpl; [done|].
  intros [-> H]%andb_true_iff. by apply IH.
Qed.

(** Blanks around a string do not survive [strip]. *)
Lemma strip_padded (pad1 s pad2 : string) :
  all_chars isspace pad1 = true -> all_chars isspace pad2 = true ->
  strip (pad1 ++ s ++ pad2) = strip s.
Proof.
  intros H1 H2. unfold strip. rewrite (lstrip_pad _ _ H1), lstrip_app.
  destruct (all_chars isspace s) eqn:E.
  - rewrite (lstrip_all_space _ E), (lstrip_all_space _ H2). done.
  - by apply rstrip_app_pad.
Qed.

Lemma strip_all_space (s : string) :
  all_chars isspace s = true -> strip s = "".
Proof. intros H. unfold strip. by rewrite (lstrip_all_space _ H). Qed.

(** X5: blanks around the input do not matter: for any strings of
    whitespace [pad1] and [pad2], [parse_since] gives the same result (or
    the same error) on [pad1 + s + pad2] as on [s]. *)
Theorem parse_since_ignores_padding (pad1 s pad2 : string) :
  all_chars isspace pad1 = true -> all_chars isspace pad2 = true ->
  parse_since (pad1 ++ s ++ pad2) = parse_since s.
Proof.
  intros H1 H2. unfold parse_since.
  destruct s as [|c s].
  - norm_append. destruct (nonempty (pad1 ++ pad2)) eqn:NE; [|done].
    rewrite strip_all_space by (by rewrite all_chars_app, H1, H2). done.
  - assert (NE : nonempty (pad1 ++ String c s ++ pad2) = true).
    { destruct pad1; norm_append; done. }
    rewrite NE. cbn [nonempty]. by rewrite (strip_padded _ _ _ H1 H2).
Qed.

Lemma parse_since_ignores_padding_witness :
  parse_since "  3m " = parse_since "3m".
Proof.
  apply (parse_since_ignores_padding "  " "3m" " "); reflexivity.
Defined.

Lemma isspace_lower_char (c : ascii) : isspace (lower_char c) = isspace c.
Proof. destruct c as [[] [] [] [] [] [] [] []]; reflexivity. Qed.

Lemma lower_char_idem (c : ascii) : lower_char (lower_char c) = lower_char c.
Proof. destruct c as [[] [] [] [] [] [] [] []]; reflexivity. Qed.

Lemma lower_idem (s : string) : lower (lower s) = lower s.
Proof.
  induction s as [|c s IH]; simpl; [done|]. by rewrite lower_char_idem, IH.
Qed.

Lemma lstrip_lower (s : string) : lstrip (lower s) = lower (lstrip s).
Proof.
  induction s as [|c s IH]; simpl; [done|].
  rewrite isspace_lower_char. by destruct (isspace c).
Qed.

Lemma rstrip_lower (s : string) : rstrip (lower s) = lower (rstrip s).
Proof.
  induction s as [|c s IH]; simpl; [done|].
  rewrite IH, isspace_lower_char.
  destruct (rstrip s); simpl; [by destruct (isspace c) | done].
Qed.

Lemma strip_lower (s : string) : strip (lower s) = lower (strip s).
Proof. unfold strip. by rewrite lstrip_lower, rstrip_lower. Qed.

(** [parse_since] sees its argument through [lower] only. *)
Lemma parse_since_lower (s : string) : parse_since (lower s) = parse_since s.
Proof.
  unfold parse_since.
  assert (E : lower (strip (if nonempty (lower s) then lower s else "12m"))
              = lower (strip (if nonempty s then s else "12m"))).
  { destruct s as [|c s]; [done|]. cbn [nonempty lower].
    change (String (lower_char c) (lower s)) with (lower (String c s)).
    by rewrite strip_lower, lower_idem. }
  by rewrite E.
Qed.

(** X6: the case of the letters does not matter: two inputs with the same
    lower-case form get the same result (or the same error). *)
Theorem parse_since_ignores_case (s s' : string) :
  lower s = lower s' -> parse_since s = parse_since s'.
Proof.
  intros E. by rewrite <- (parse_since_lower s), <- (parse_since_lower s'), E.
Qed.

Lemma parse_since_ignores_case_witness : parse_since "2Y" = parse_since "2y".
Proof. apply (parse_since_ignores_case "2Y" "2y"). reflexivity. Defined.

(** [int] raises on the empty string, on a character that is no decimal
    digit, and on more digits than it takes; on nothing else. *)
Lemma int_raises (s : string) :
  (exists e, int s = Raise e)
  <-> s = "" \/ all_chars is_decimal s = false
      \/ INT_MAX_STR_DIGITS < Z.of_nat (String.length s).
Proof.
  unfold int. destruct s as [|c s].
  - split; [by left | by eexists].
  - destruct (Z.ltb_spec INT_MAX_STR_DIGITS (Z.of_nat (String.length (String c s))))
      as [L|L].
    { split; [intros _; by right; right | by eexists]. }
    destruct (int_digits 0 (String c s)) as [z|] eqn:E.
    + split; [by intros [e ?]|]. intros [?|[H|H]]; [done | | lia].
      apply int_digits_none with (acc := 0) in H. congruence.
    + split; [|by eexists]. intros _. right. left.
      by apply (int_digits_none _ 0).
Qed.

(** X7: [parse_since] raises exactly when the trimmed, lower-cased input
    ends in [m] or [y], the part before that unit passes [str.isdigit],
    and [int] refuses that part: one of its characters is no decimal digit
    (a superscript digit), or it has more than 4300 digits. On every other
    input it returns a token. *)
Theorem parse_since_raises_iff (s : string) :
  let t := lower (strip (if nonempty s then s else "12m")) in
  (exists e, parse_since s = Raise e)
  <-> (endswith t "m" || endswith t "y") = true
      /\ isdigit (init t) = true
      /\ (all_chars is_decimal (init t) = false
          \/ INT_MAX_STR_DIGITS < Z.of_nat (String.length (init t))).
Proof.
  intros t. unfold parse_since. fold t.
  assert (I : isdigit (init t) = true ->
              ((exists e, int (init t) = Raise e)
               <-> all_chars is_decimal (init t) = false
                   \/ INT_MAX_STR_DIGITS < Z.of_nat (String.length (init t)))).
  { intros D. rewrite int_raises. split; [|by right].
    intros [E|H]; [|done]. by rewrite E in D. }
  destruct (endswith t "m") eqn:Em; cbn [orb andb].
  - destruct (isdigit (init t)) eqn:D.
    + specialize (I eq_refl). rewrite <- I.
      destruct (int (init t)) as [m|e].
      * split; [by intros [? ?] | by intros (_ & _ & ? & ?)].
      * split; [intros _; split; [done | split; [done | by eexists]]
               | intros _; by eexists].
    + destruct (endswith t "y"); cbn [andb];
        (split; [by intros [? ?] | by intros (_ & ? & _)]).
  - destruct (endswith t "y") eqn:Ey; cbn [andb].
    + destruct (isdigit (init t)) eqn:D.
      * specialize (I eq_refl). rewrite <- I.
        destruct (int (init t)) as [m|e].
        -- split; [by intros [? ?] | by intros (_ & _ & ? & ?)].
        -- split; [intros _; split; [done | split; [done | by eexists]]
               | intros _; by eexists].
      * split; [by intros [? ?] | by intros (_ & ? & _)].
    + split; [by intros [? ?] | by intros (? & _)].
Qed.

(** ** The cached endpoints, continued *)

(** X8: the keys of different operations never coincide, whatever the
    keyword, geo and window are; an entry written by one endpoint is never
    read by another. *)
Theorem keys_of_operations_disjoint (g kw1 geo1 tf1 kw2 geo2 tf2 : string) :
  trending_key g <> interest_key kw1 geo1 tf1
  /\ trending_key g <> related_key kw2 geo2 tf2
  /\ interest_key kw1 geo1 tf1 <> related_key kw2 geo2 tf2.
Proof.
  unfold trending_key, interest_key, related_key.
  repeat split; norm_append; discriminate.
Qed.

Section EndpointRuns.
Variable pytrends : Provider.

(** The three cached endpoints, run: the lookup, then the cached value
    when it is truthy, the miss path otherwise. *)
Lemma api_trending_run (geo : string) (w : World) :
  api_trending pytrends geo w =
    let c := cache_get (trending_key geo) w in
    match fst c with
    | Ok cached =>
        if truthy cached then (Ok (VDict [("items", cached)]), snd c)
        else trending_miss pytrends geo (snd c)
    | Raise e => (Raise e, snd c)
    end.
Proof.
  unfold api_trending, bind at 1.
  destruct (cache_get (trending_key geo) w) as [[cached|e] w0]; cbn [fst snd];
    [|done].
  destruct (truthy cached); [done|].
  unfold trending_miss, bind, try_except, fetch_trending, request, lift,
    cache_set, ret, bad_gateway, raise, after_request.
  destruct (trending_searches pytrends (calls w0) (lower geo)) as [d [df|e]];
    cbn [fst snd]; [|done].
  by destruct (trending_items df).
Qed.

Lemma api_interest_run (kw geo since tf : string) (w : World) :
  parse_since since = Ok tf ->
  api_interest pytrends kw geo since w =
    let c := cache_get (interest_key kw geo tf) w in
    match fst c with
    | Ok cached =>
        if truthy cached then (Ok cached, snd c)
        else interest_miss pytrends kw geo tf (snd c)
    | Raise e => (Raise e, snd c)
    end.
Proof.
  intros P. unfold api_interest, bind at 1, lift at 1. rewrite P.
  unfold bind at 1.
  destruct (cache_get (interest_key kw geo tf) w) as [[cached|e] w0];
    cbn [fst snd]; [|done].
  destruct (truthy cached); [done|].
  unfold interest_miss, bind, try_except, fetch_interest, request, lift,
    cache_set, ret, bad_gateway, raise, after_request.
  destruct (interest_over_time pytrends (calls w0) kw tf geo) as [d [df|e]];
    cbn [fst snd]; [|done].
  destruct (empty df || negb (has_column kw df)); [done|].
  by destruct (interest_payload kw df).
Qed.

Lemma api_related_run (kw geo since tf : string) (w : World) :
  parse_since since = Ok tf ->
  api_related pytrends kw geo since w =
    let c := cache_get (related_key kw geo tf) w in
    match fst c with
    | Ok cached =>
        if truthy cached then (Ok cached, snd c)
        else related_miss pytrends kw geo tf (snd c)
    | Raise e => (Raise e, snd c)
    end.
Proof.
  intros P. unfold api_related, bind at 1, lift at 1. rewrite P.
  unfold bind at 1.
  destruct (cache_get (related_key kw geo tf) w) as [[cached|e] w0];
    cbn [fst snd]; [|done].
  destruct (truthy cached); [done|].
  unfold related_miss, bind, try_except, fetch_related, request, lift,
    cache_set, ret, bad_gateway, raise, after_request.
  destruct (related_queries pytrends (calls w0) kw tf geo) as [d [rq|e]];
    cbn [fst snd]; [|done].
  by destruct (normalize_related kw rq).
Qed.

End EndpointRuns.

(** Every lookup returns; it leaves the clock and the provider log alone
    and never grows the cache; and a truthy value comes from an entry
    within its ttl, with the world unchanged. *)
Lemma cache_get_spec (k : string) (w : World) :
  exists v w0,
    cache_get k w = (Ok v, w0)
    /\ clock w0 = clock w /\ calls w0 = calls w /\ CACHE w0 ⊆ CACHE w
    /\ (truthy v = true ->
        w0 = w /\ exists item, CACHE w !! k = Some item /\ fresh item w
                               /\ data item = v).
Proof.
  unfold cache_get. destruct (CACHE w !! k) as [item|] eqn:L.
  - destruct (Qgtb _ _) eqn:G.
    + eexists _, _. split; [done|]. cbn. repeat split; try done.
      apply delete_subseteq.
    + eexists _, _. split; [done|]. repeat split; try done.
      by exists item.
  - eexists _, _. split; [done|]. repeat split; done.
Qed.

Lemma fresh_elapse (item : Item) (d : Q) (w : World) (t : Z) :
  ts item = clock w -> ttl item = Some t -> (d <= inject_Z t)%Q ->
  fresh item (elapse d w).
Proof.
  intros Hts Ht Hd. unfold fresh, elapse; cbn [clock]. rewrite Hts, Ht.
  apply Qgtb_false. lra.
Qed.

Lemma dict_set_nonempty (k : string) (v : pyval) (d : list (string * pyval)) :
  dict_set k v d <> [].
Proof. destruct d as [|[k' v'] d]; simpl; [done|]. by destruct (String.eqb k k'). Qed.

Lemma normalize_related_truthy (kw : string) (rq : RelatedResponse) (out : pyval) :
  normalize_related kw rq = Ok out -> truthy out = true.
Proof.
  unfold normalize_related.
  set (block := match rq with RQDict d => default ∅ (d !! kw) | RQOther => ∅ end).
  destruct (fill_block "top" block _) as [o1|] eqn:E1; [|done].
  destruct (fill_block "rising" block o1) as [o2|] eqn:E2; [|done].
  intros [= <-]. cbn.
  assert (N1 : o1 <> []).
  { unfold fill_block in E1. destruct (block !! "top") as [[df|]|];
      [destruct (records df); [|done] | |]; injection E1 as <-;
      first [apply dict_set_nonempty | done]. }
  assert (N2 : o2 <> []).
  { unfold fill_block in E2. destruct (block !! "rising") as [[df|]|];
      [destruct (records df); [|done] | |]; injection E2 as <-;
      first [apply dict_set_nonempty | done]. }
  by destruct o2.
Qed.

Section CachedEndpoints.
Variable pytrends : Provider.

Lemma api_trending_hit (geo : string) (item : Item) (w : World) :
  CACHE w !! trending_key geo = Some item -> fresh item w ->
  truthy (data item) = true ->
  api_trending pytrends geo w = (Ok (VDict [("items", data item)]), w).
Proof.
  intros L F T. rewrite api_trending_run, (cache_get_fresh _ _ _ L F).
  cbn [fst snd]. by rewrite T.
Qed.

Lemma api_interest_hit (kw geo since tf : string) (item : Item) (w : World) :
  parse_since since = Ok tf ->
  CACHE w !! interest_key kw geo tf = Some item -> fresh item w ->
  truthy (data item) = true ->
  api_interest pytrends kw geo since w = (Ok (data item), w).
Proof.
  intros P L F T. rewrite (api_interest_run _ _ _ _ _ _ P),
    (cache_get_fresh _ _ _ L F). cbn [fst snd]. by rewrite T.
Qed.

Lemma api_related_hit (kw geo since tf : string) (item : Item) (w : World) :
  parse_since since = Ok tf ->
  CACHE w !! related_key kw geo tf = Some item -> fresh item w ->
  truthy (data item) = true ->
  api_related pytrends kw geo since w = (Ok (data item), w).
Proof.
  intros P L F T. rewrite (api_related_run _ _ _ _ _ _ P),
    (cache_get_fresh _ _ _ L F). cbn [fst snd]. by rewrite T.
Qed.

(** X9: a result of the interest or related endpoint is served again from
    the cache: after a call that returned [v], the entry under the
    request's key holds [v], and the same request made while that entry is
    within its ttl returns [v] again without asking the provider and
    without changing anything; when the first call did ask the provider,
    that is the case for the next 1200 time units (interest) or 1800
    (related). *)
Theorem repeated_request_served_from_cache (kw geo since : string)
    (v : pyval) (w w1 : World) :
  let again (api : M pyval) (key : string) (keep : Z) : Prop :=
    api w = (Ok v, w1) ->
    exists item,
      CACHE w1 !! key = Some item /\ data item = v
      /\ (forall d, fresh item (elapse d w1) ->
                    api (elapse d w1) = (Ok v, elapse d w1))
      /\ (calls w1 <> calls w ->
          forall d, (d <= inject_Z keep)%Q ->
                    api (elapse d w1) = (Ok v, elapse d w1)) in
  (forall tf, parse_since since = Ok tf ->
     again (api_interest pytrends kw geo since) (interest_key kw geo tf) 1200)
  /\ (forall tf, parse_since since = Ok tf ->
     again (api_related pytrends kw geo since) (related_key kw geo tf) 1800).
Proof.
  intros again; subst again; cbv beta. split; intros tf P H.
  - rewrite (api_interest_run _ _ _ _ _ _ P) in H.
    destruct (cache_get_spec (interest_key kw geo tf) w)
      as (v0 & w0 & G & Hc & Hl & _ & Ht).
    rewrite G in H; cbn [fst snd] in H.
    destruct (truthy v0) eqn:T.
    + injection H as <- <-. destruct (Ht eq_refl) as (-> & item & L & F & D).
      exists item. repeat split; try done.
      intros d Fd. rewrite <- D.
      apply (api_interest_hit _ _ _ tf); try done. by rewrite D.
    + unfold interest_miss in H.
      destruct (interest_over_time pytrends (calls w0) kw tf geo) as [d0 [df|e]];
        cbn [fst snd] in H; [|done].
      destruct (empty df || negb (has_column kw df)); [done|].
      destruct (interest_payload kw df) as [payload|] eqn:I; [|done].
      assert (T' : truthy payload = true).
      { unfold interest_payload in I. destruct (astype_int _); [|done].
        by injection I as <-. }
      set (w' := after_request (InterestOverTime kw tf geo) d0 w0) in H.
      injection H as <- <-.
      set (item := mkItem payload (clock w') (Some CACHE_TTL)).
      assert (L : CACHE (snd (cache_set (interest_key kw geo tf)
                   payload None w')) !! interest_key kw geo tf
                  = Some item).
      { cbn. by rewrite lookup_insert_eq. }
      assert (A : forall d, fresh item (elapse d (snd (cache_set
                     (interest_key kw geo tf) payload None w'))) ->
                  api_interest pytrends kw geo since (elapse d (snd (cache_set
                     (interest_key kw geo tf) payload None w')))
                  = (Ok payload, elapse d (snd (cache_set
                     (interest_key kw geo tf) payload None w')))).
      { intros d Fd.
        by apply (api_interest_hit _ _ _ tf item). }
      exists item. repeat split; try done.
      intros _ d Hd. apply A. by apply (fresh_elapse _ _ _ 1200).
  - rewrite (api_related_run _ _ _ _ _ _ P) in H.
    destruct (cache_get_spec (related_key kw geo tf) w)
      as (v0 & w0 & G & Hc & Hl & _ & Ht).
    rewrite G in H; cbn [fst snd] in H.
    destruct (truthy v0) eqn:T.
    + injection H as <- <-. destruct (Ht eq_refl) as (-> & item & L & F & D).
      exists item. repeat split; try done.
      intros d Fd. rewrite <- D.
      apply (api_related_hit _ _ _ tf); try done. by rewrite D.
    + unfold related_miss in H.
      destruct (related_queries pytrends (calls w0) kw tf geo) as [d0 [rq|e]];
        cbn [fst snd] in H; [|done].
      destruct (normalize_related kw rq) as [out|] eqn:N; [|done].
      set (w' := after_request (RelatedQueries kw tf geo) d0 w0) in H.
      injection H as <- <-.
      apply normalize_related_truthy in N.
      set (item := mkItem out (clock w') (Some 1800)).
      assert (L : CACHE (snd (cache_set (related_key kw geo tf) out (Some 1800) w'))
                    !! related_key kw geo tf = Some item).
      { cbn. by rewrite lookup_insert_eq. }
      assert (A : forall d, fresh item (elapse d (snd (cache_set
                     (related_key kw geo tf) out (Some 1800) w'))) ->
                  api_related pytrends kw geo since (elapse d (snd (cache_set
                     (related_key kw geo tf) out (Some 1800) w')))
                  = (Ok out, elapse d (snd (cache_set
                     (related_key kw geo tf) out (Some 1800) w')))).
      { intros d Fd. by apply (api_related_hit _ _ _ tf item). }
      exists item. repeat split; try done.
      intros _ d Hd. apply A. by apply (fresh_elapse _ _ _ 1800).
Qed.

End CachedEndpoints.

Lemma repeated_request_served_from_cache_witness :
  let w1 := snd (api_interest sample_provider "a" "CZ" "3m" empty_world) in
  let v := VDict [("labels", VList [VStr "2024-01-07"; VStr "2024-01-14"]);
                  ("values", VList [VInt 3; VInt 0])] in
  api_interest sample_provider "a" "CZ" " 3M " (elapse 1200 w1)
  = (Ok v, elapse 1200 w1).
Proof.
  intros w1 v.
  destruct (repeated_request_served_from_cache sample_provider "a" "CZ" " 3M "
              v empty_world w1)
    as [H _].
  destruct (H "today 3-m" eq_refl eq_refl) as (item & _ & _ & _ & H2).
  apply H2; [discriminate | vm_compute; discriminate].
Defined.

Lemma trending_items_bound (df : DataFrame scalar) (items : pyval) :
  trending_items df = Ok items ->
  exists l, items = VList (map pyval_of_scalar l) /\ (length l <= 30)%nat.
Proof.
  unfold trending_items. destruct (columns df) as [|[n cells] [|c cols]]; try done.
  intros [= <-]. eexists. split; [done|]. rewrite length_firstn. lia.
Qed.

Section Trending.
Variable pytrends : Provider.

(** X10: a trending result obtained from the provider has at most 30
    items and is stored for 1800 time units. When it has an item, the same
    request is served from the cache, without a provider request, for the
    next 1800 time units; when it has none, the stored empty list is never
    served: every later request asks the provider again. *)
Theorem trending_result_capped_and_cached (geo : string) (out : pyval)
    (w w1 : World) :
  api_trending pytrends geo w = (Ok out, w1) ->
  calls w1 <> calls w ->
  exists l,
    out = VDict [("items", VList (map pyval_of_scalar l))]
    /\ (length l <= 30)%nat
    /\ CACHE w1 !! trending_key geo
       = Some (mkItem (VList (map pyval_of_scalar l)) (clock w1) (Some 1800))
    /\ (l <> [] -> forall d, (d <= 1800)%Q ->
          api_trending pytrends geo (elapse d w1) = (Ok out, elapse d w1))
    /\ (l = [] -> forall d,
          calls (snd (api_trending pytrends geo (elapse d w1)))
          = (calls w1 ++ [TrendingSearches (lower geo)])%list).
Proof.
  intros H Hcalls. rewrite api_trending_run in H.
  destruct (cache_get_spec (trending_key geo) w)
    as (v0 & w0 & G & Hc & Hl & _ & Ht).
  rewrite G in H; cbn [fst snd] in H.
  destruct (truthy v0) eqn:T.
  { injection H as <- <-. by destruct (Ht eq_refl) as (-> & _). }
  unfold trending_miss in H.
  destruct (trending_searches pytrends (calls w0) (lower geo)) as [d0 [df|e]];
    cbn [fst snd] in H; [|done].
  destruct (trending_items df) as [items|] eqn:I; [|done].
  set (w' := after_request (TrendingSearches (lower geo)) d0 w0) in H.
  injection H as <- <-.
  destruct (trending_items_bound _ _ I) as (l & -> & Hlen).
  exists l. split; [done|]. split; [done|].
  set (item := mkItem (VList (map pyval_of_scalar l)) (clock w') (Some 1800)).
  assert (L : forall d, CACHE (elapse d (snd (cache_set (trending_key geo)
                 (VList (map pyval_of_scalar l)) (Some 1800) w')))
               !! trending_key geo = Some item).
  { intros d. cbn. by rewrite lookup_insert_eq. }
  split; [apply (L 0%Q)|]. split.
  - intros Hne d Hd.
    apply (api_trending_hit pytrends geo item); [apply L | |].
    + by apply (fresh_elapse _ _ _ 1800).
    + cbn. by destruct l.
  - intros -> d. rewrite api_trending_run.
    match goal with
    | |- context [cache_get ?k ?ww] =>
        destruct (cache_get_spec k ww) as (v1 & w2 & G2 & _ & Hl2 & _ & Ht2)
    end.
    rewrite G2; cbn [fst snd].
    destruct (truthy v1) eqn:T1.
    + destruct (Ht2 eq_refl) as (_ & item' & L' & _ & D').
      rewrite L in L'. injection L' as <-. by rewrite <- D' in T1.
    + unfold trending_miss.
      destruct (trending_searches pytrends (calls w2) (lower geo)) as [d1 [df1|e1]];
        cbn [fst snd]; [destruct (trending_items df1)|];
        cbn [snd cache_set after_request calls]; by rewrite Hl2.
Qed.

(** X11: the cached endpoints never store a failure. When one of them
    raises, the exception is an HTTP 502 carrying the cause (or, for the
    interest and related endpoints, the error of the window translation),
    and the cache holds nothing it did not hold before the request. *)
Theorem failures_are_not_cached (kw geo since : string) (e : exn)
    (w w1 : World) :
  (api_trending pytrends geo w = (Raise e, w1) ->
     (exists cause, e = HTTPException 502 cause) /\ CACHE w1 ⊆ CACHE w)
  /\ (api_interest pytrends kw geo since w = (Raise e, w1) ->
     ((exists cause, e = HTTPException 502 cause)
      \/ parse_since since = Raise e /\ w1 = w)
     /\ CACHE w1 ⊆ CACHE w)
  /\ (api_related pytrends kw geo since w = (Raise e, w1) ->
     ((exists cause, e = HTTPException 502 cause)
      \/ parse_since since = Raise e /\ w1 = w)
     /\ CACHE w1 ⊆ CACHE w).
Proof.
  split; [|split].
  - rewrite api_trending_run.
    destruct (cache_get_spec (trending_key geo) w)
      as (v0 & w0 & G & _ & _ & Sub & _).
    rewrite G; cbn [fst snd]. destruct (truthy v0); [done|].
    unfold trending_miss.
    destruct (trending_searches pytrends (calls w0) (lower geo)) as [d0 [df|e0]];
      cbn [fst snd]; [destruct (trending_items df)|];
      intros [= <- <-]; (split; [by eexists | done]).
  - destruct (parse_since since) as [tf|e0] eqn:P.
    + rewrite (api_interest_run _ _ _ _ _ _ P).
      destruct (cache_get_spec (interest_key kw geo tf) w)
        as (v0 & w0 & G & _ & _ & Sub & _).
      rewrite G; cbn [fst snd]. destruct (truthy v0); [done|].
      unfold interest_miss.
      destruct (interest_over_time pytrends (calls w0) kw tf geo) as [d0 [df|e0]];
        cbn [fst snd];
        [destruct (empty df || negb (has_column kw df));
           [|destruct (interest_payload kw df)]|];
        intros [= <- <-]; (split; [left; by eexists | done]).
    + unfold api_interest, bind, lift. rewrite P. intros [= <- <-].
      split; [by right | done].
  - destruct (parse_since since) as [tf|e0] eqn:P.
    + rewrite (api_related_run _ _ _ _ _ _ P).
      destruct (cache_get_spec (related_key kw geo tf) w)
        as (v0 & w0 & G & _ & _ & Sub & _).
      rewrite G; cbn [fst snd]. destruct (truthy v0); [done|].
      unfold related_miss.
      destruct (related_queries pytrends (calls w0) kw tf geo) as [d0 [rq|e0]];
        cbn [fst snd]; [destruct (normalize_related kw rq)|];
        intros [= <- <-]; (split; [left; by eexists | done]).
    + unfold api_related, bind, lift. rewrite P. intros [= <- <-].
      split; [by right | done].
Qed.

End Trending.

(** ** BatchAggregator, continued *)

Section BatchRuns.
Variable pytrends : Provider.





(** X13: for any seed list, the batch makes one provider request for each
    of its first five seeds, in order, [min 5 (len seeds)] in all, and its
    series has at most that many entries; with no seed at all it returns
    [{"labels": [], "series": []}] and leaves the world untouched. *)
Theorem batch_requests_bounded (p : BatchInterestIn) (tf : string) (w : World) :
  parse_since (since p) = Ok tf ->
  let r := api_batch_interest pytrends p w in
  calls (snd r)
    = (calls w ++ map (fun s => InterestOverTime s tf (geo p))
                      (firstn 5 (seeds p)))%list
  /\ length (calls (snd r)) = (length (calls w) + min 5 (length (seeds p)))%nat
  /\ (exists labels series,
        fst r = Ok (VDict [("labels", VList labels); ("series", VList series)])
        /\ (length series <= min 5 (length (seeds p)))%nat)
  /\ (seeds p = [] ->
        r = (Ok (VDict [("labels", VList []); ("series", VList [])]), w)).
Proof.
  intros P r. subst r.
  destruct (batch_loop_run pytrends tf (geo p) (firstn 5 (seeds p)) (None, []) w)
    as (st & w' & picked & added & R & _ & L & S & Sub & F).
  assert (E : api_batch_interest pytrends p w =
              (Ok (VDict [("labels", VList (map VStr (default [] (fst st))));
                          ("series", VList (snd st))]), w')).
  { unfold api_batch_interest, bind, lift. rewrite P, R. unfold ret.
    by destruct (fst st). }
  rewrite E. cbn [fst snd]. split; [done|]. split; [|split].
  - rewrite L, length_app, length_map, length_firstn. lia.
  - eexists _, _. split; [done|]. cbn [snd app] in S. rewrite S.
    apply Forall2_length in F. rewrite F.
    apply sublist_length in Sub. by rewrite length_firstn in Sub.
  - intros Hnil. rewrite Hnil in R. cbn in R. by injection R as <- <-.
Qed.

End BatchRuns.

(** ** The registry *)

(** *** Rowids *)

#[global] Instance id_desc_trans : Transitive id_desc.
Proof. intros x y z. unfold id_desc. lia. Qed.

#[global] Instance id_desc_total : Total id_desc.
Proof. intros x y. unfold id_desc. lia. Qed.

#[global] Instance id_desc_antisymm : AntiSymm (=) id_desc.
Proof. intros x y. unfold id_desc. lia. Qed.

Lemma list_max_spec (l : list Z) :
  match list_max l with
  | None => l = []
  | Some m => m ∈ l /\ forall k, k ∈ l -> k <= m
  end.
Proof.
  induction l as [|x l IH]; [done|]. cbn [list_max foldr].
  fold (list_max l). destruct (list_max l) as [m|].
  - destruct IH as [Hm Hmax]. split.
    + destruct (Z.max_spec x m) as [[_ ->]|[_ ->]]; [by right | by left].
    + intros k [->|Hk]%elem_of_cons; [lia|]. specialize (Hmax k Hk). lia.
  - subst l. split; [by left|]. intros k [->|Hk]%elem_of_cons; [lia|].
    by apply elem_of_nil in Hk.
Qed.

Lemma keys_map_to_list {A} (rows : gmap Z A) (k : Z) :
  k ∈ map fst (map_to_list rows) <-> is_Some (rows !! k).
Proof.
  change (map fst (map_to_list rows)) with ((map_to_list rows).*1).
  rewrite list_elem_of_fmap. split.
  - intros [[k' a] [-> H]]. apply elem_of_map_to_list in H. by exists a.
  - intros [a H]. exists (k, a). split; [done|]. by apply elem_of_map_to_list.
Qed.

Lemma max_rowid_spec {A} (rows : gmap Z A) :
  match max_rowid rows with
  | None => rows = ∅
  | Some m => is_Some (rows !! m) /\ forall k, is_Some (rows !! k) -> k <= m
  end.
Proof.
  unfold max_rowid.
  pose proof (list_max_spec (map fst (map_to_list rows))) as H.
  destruct (list_max _) as [m|].
  - destruct H as [Hm Hmax]. split; [by apply keys_map_to_list|].
    intros k Hk. by apply Hmax, keys_map_to_list.
  - apply map_to_list_empty_iff. by destruct (map_to_list rows).
Qed.

(** A new rowid is beyond every rowid of the table and every rowid issued
    before. *)
Lemma next_rowid_fresh {A} (rows : gmap Z A) (seq id : Z) :
  next_rowid rows seq = Some id ->
  rows !! id = None /\ seq < id /\ forall k, is_Some (rows !! k) -> k < id.
Proof.
  unfold next_rowid. destruct (_ || _); [done|]. intros [= <-].
  pose proof (max_rowid_spec rows) as H.
  destruct (max_rowid rows) as [m|].
  - destruct H as [_ Hmax].
    assert (B : forall k, is_Some (rows !! k) -> k < Z.max (m + 1) (seq + 1)).
    { intros k Hk. specialize (Hmax k Hk). lia. }
    split; [|split; [lia | done]].
    apply eq_None_not_Some. intros Hs. specialize (B _ Hs). lia.
  - subst rows. split; [done|]. split; [lia|]. by intros k [a Ha].
Qed.

(** The one way an insertion fails: the largest rowid has been reached. *)
Lemma next_rowid_none {A} (rows : gmap Z A) (seq : Z) :
  next_rowid rows seq = None
  <-> is_Some (rows !! MAX_ROWID) /\ (forall k, is_Some (rows !! k) -> k <= MAX_ROWID)
      \/ seq = MAX_ROWID.
Proof.
  unfold next_rowid. pose proof (max_rowid_spec rows) as H.
  destruct (bool_decide (max_rowid rows = Some MAX_ROWID)) eqn:B; cbn [orb].
  - apply bool_decide_eq_true in B. rewrite B in H. split; [|done].
    intros _. by left.
  - apply bool_decide_eq_false in B.
    destruct (Z.eqb_spec seq MAX_ROWID) as [->|Hs]; [split; [by right | done]|].
    split; [done|]. intros [[Hm Hmax]|?]; [|done]. exfalso. apply B.
    destruct (max_rowid rows) as [m|]; [|by subst rows; destruct Hm].
    destruct H as [Hin Hle]. f_equal.
    specialize (Hle _ Hm). specialize (Hmax _ Hin). lia.
Qed.

(** *** [ORDER BY id DESC] *)

Lemma ids_desc_perm {A} (rows : gmap Z A) :
  ids_desc rows ≡ₚ map fst (map_to_list rows).
Proof. apply merge_sort_Permutation. Qed.

Lemma ids_desc_elem {A} (rows : gmap Z A) (k : Z) :
  k ∈ ids_desc rows <-> is_Some (rows !! k).
Proof. by rewrite ids_desc_perm, keys_map_to_list. Qed.

Lemma ids_desc_sorted {A} (rows : gmap Z A) : StronglySorted id_desc (ids_desc rows).
Proof. apply (StronglySorted_merge_sort id_desc). Qed.

Lemma ids_desc_NoDup {A} (rows : gmap Z A) : NoDup (ids_desc rows).
Proof.
  rewrite ids_desc_perm.
  change (map fst (map_to_list rows)) with ((map_to_list rows).*1).
  apply NoDup_fst_map_to_list.
Qed.

(** The rowids of a table come out in strictly decreasing order. *)
Lemma ids_desc_strict {A} (rows : gmap Z A) :
  StronglySorted (fun x y => y < x) (ids_desc rows).
Proof.
  pose proof (ids_desc_sorted rows) as S. pose proof (ids_desc_NoDup rows) as N.
  induction S as [|x l S IH F]; [constructor|].
  apply NoDup_cons in N as [Hx N]. constructor; [by apply IH|].
  rewrite Forall_forall in F |- *. intros y Hy.
  specialize (F y Hy). unfold id_desc in F.
  assert (x <> y) by (by intros ->). lia.
Qed.

(** A row inserted under a rowid above all others comes first. *)
Lemma ids_desc_insert_top {A} (rows : gmap Z A) (id : Z) (a : A) :
  (forall k, is_Some (rows !! k) -> k < id) ->
  ids_desc (<[id := a]> rows) = id :: ids_desc rows.
Proof.
  intros Htop.
  assert (Hnone : rows !! id = None).
  { apply eq_None_not_Some. intros Hs. specialize (Htop _ Hs). lia. }
  apply (StronglySorted_unique id_desc).
  - apply ids_desc_sorted.
  - constructor; [apply ids_desc_sorted|].
    rewrite Forall_forall. intros k Hk. apply ids_desc_elem in Hk.
    specialize (Htop _ Hk). unfold id_desc. lia.
  - rewrite !ids_desc_perm.
    change (map fst ?l) with (l.*1).
    by rewrite (map_to_list_insert _ _ _ Hnone).
Qed.

(** *** Selections *)

Section Rows.
Context {A B : Type} (f : Z -> A -> B) (m : gmap Z A).

Lemma rows_elem (l : list Z) (b : B) :
  b ∈ omap (fun id => f id <$> m !! id) l
  <-> exists id a, id ∈ l /\ m !! id = Some a /\ b = f id a.
Proof.
  rewrite list_elem_of_omap. split.
  - intros (id & Hid & E). destruct (m !! id) as [a|] eqn:L; [|done].
    injection E as <-. by exists id, a.
  - intros (id & a & Hid & L & ->). exists id. by rewrite L.
Qed.

Lemma rows_sorted (key : B -> Z) (l : list Z) :
  (forall id a, key (f id a) = id) ->
  StronglySorted (fun x y => y < x) l ->
  StronglySorted (fun x y => key y < key x)
                 (omap (fun id => f id <$> m !! id) l).
Proof.
  intros Hkey S. induction S as [|x l S IH F]; [constructor|]. csimpl.
  destruct (m !! x) as [a|]; csimpl; [|done].
  constructor; [done|]. apply Forall_forall.
  intros b (id & a' & Hid & _ & ->)%rows_elem. rewrite !Hkey.
  by apply (proj1 (Forall_forall _ _) F).
Qed.

Lemma rows_cons (l : list Z) (id : Z) (a : A) :
  m !! id = Some a ->
  omap (fun id => f id <$> m !! id) (id :: l)
  = f id a :: omap (fun id => f id <$> m !! id) l.
Proof. intros L. csimpl. by rewrite L. Qed.
End Rows.

Lemma rows_ext {A B} (f : Z -> A -> B) (m m' : gmap Z A) (l : list Z) :
  (forall id, id ∈ l -> m !! id = m' !! id) ->
  omap (fun id => f id <$> m !! id) l = omap (fun id => f id <$> m' !! id) l.
Proof.
  intros H. apply list_omap_ext. induction l as [|x l IH]; constructor.
  - by rewrite H by left.
  - apply IH. intros id Hid. apply H. by right.
Qed.

Lemma select_groups_elem (db : Database) (id : Z) (n : string) :
  (id, n) ∈ select_groups db <-> groups db !! id = Some n.
Proof.
  unfold select_groups. rewrite rows_elem. split.
  - by intros (id' & a & _ & L & [= -> ->]).
  - intros L. exists id, n. split; [|done]. apply ids_desc_elem. by exists n.
Qed.

Lemma select_keywords_elem (gid : Z) (db : Database) (kid : Z) (t : string) :
  mkKeywordRow kid t ∈ select_keywords gid db
  <-> keywords db !! kid = Some (gid, t).
Proof.
  unfold select_keywords. rewrite rows_elem. split.
  - intros (id & [g t'] & _ & L & [= -> ->]).
    apply map_lookup_filter_Some in L as [L E]. cbn in E. by subst g.
  - intros L.
    assert (L' : keywords_of gid db !! kid = Some (gid, t)).
    { by apply map_lookup_filter_Some. }
    exists kid, (gid, t). split; [|done]. apply ids_desc_elem. by eexists.
Qed.

Lemma list_groups_elem (db : Database) (g : GroupRow) :
  g ∈ list_groups db
  <-> groups db !! g_id g = Some (g_name g)
      /\ g_keywords g = select_keywords (g_id g) db.
Proof.
  unfold list_groups. change (map ?f ?l) with (f <$> l).
  rewrite list_elem_of_fmap. split.
  - intros ([id n] & -> & H). apply select_groups_elem in H. by cbn.
  - intros [L K]. exists (g_id g, g_name g). split.
    + destruct g as [id n kws]. cbn in *. by rewrite K.
    + by apply select_groups_elem.
Qed.

(** X14: [list_groups] lists every group of the table exactly once, newest
    (largest id) first, each with exactly the keywords that carry its id,
    newest first as well. *)
Theorem list_groups_sorted_complete (db : Database) :
  StronglySorted (fun a b => g_id b < g_id a) (list_groups db)
  /\ (forall g, g ∈ list_groups db
        <-> groups db !! g_id g = Some (g_name g)
            /\ g_keywords g = select_keywords (g_id g) db)
  /\ (forall gid,
        StronglySorted (fun a b => kw_id b < kw_id a) (select_keywords gid db)
        /\ forall kid t, mkKeywordRow kid t ∈ select_keywords gid db
                         <-> keywords db !! kid = Some (gid, t)).
Proof.
  split; [|split].
  - unfold list_groups.
    change (map ?f ?l) with (f <$> l).
    apply (StronglySorted_fmap _ (fun a b : Z * string => fst b < fst a)).
    + by intros [] [].
    + unfold select_groups.
      apply (rows_sorted (fun id n => (id, n)) _ fst); [done|].
      apply ids_desc_strict.
  - apply list_groups_elem.
  - intros gid. split; [|apply select_keywords_elem].
    unfold select_keywords.
    apply (rows_sorted (fun id (r : Z * string) => mkKeywordRow id (snd r)) _ kw_id);
      [done|]. apply ids_desc_strict.
Qed.

Lemma select_keywords_none (gid : Z) (db : Database) :
  (forall kid t, keywords db !! kid <> Some (gid, t)) ->
  select_keywords gid db = [].
Proof.
  intros H. unfold select_keywords.
  assert (E : keywords_of gid db = ∅).
  { apply map_empty. intros k. apply map_lookup_filter_None. right.
    intros [g t] L E. cbn in E. subst g. by apply (H k t). }
  rewrite E. reflexivity.
Qed.

(** X15: what [create_group] does when it returns: the response repeats
    the name as it was sent, while the table stores it stripped; the new
    id is above every id of the table and every id issued before; the
    keywords are untouched; and in a database whose keywords all belong to
    a group, the new group heads the listing, with no keyword. *)
Theorem create_group_effect (g : GroupIn) (db db' : Database) (out : GroupOut) :
  create_group g db = (Returned out, db') ->
  out_name out = name g
  /\ (forall id, is_Some (groups db !! id) -> id < out_id out)
  /\ groups_seq db < out_id out
  /\ groups db' = <[out_id out := strip (name g)]> (groups db)
  /\ keywords db' = keywords db
  /\ select_groups db' = (out_id out, strip (name g)) :: select_groups db
  /\ (referential db ->
      list_groups db'
      = mkGroupRow (out_id out) (strip (name g)) [] :: list_groups db).
Proof.
  unfold create_group.
  destruct (next_rowid (groups db) (groups_seq db)) as [gid|] eqn:N; [|done].
  intros [= <- <-]. cbn [out_name out_id groups keywords].
  destruct (next_rowid_fresh _ _ _ N) as (Hnone & Hseq & Htop).
  assert (S : select_groups
                (mkDatabase (<[gid := strip (name g)]> (groups db)) gid
                            (keywords db) (keywords_seq db))
              = (gid, strip (name g)) :: select_groups db).
  { unfold select_groups; cbn [groups].
    rewrite (ids_desc_insert_top _ _ _ Htop).
    rewrite (rows_cons _ _ _ _ (strip (name g))) by apply lookup_insert_eq.
    f_equal. apply rows_ext. intros id Hid. apply lookup_insert_ne.
    intros <-. apply ids_desc_elem in Hid. specialize (Htop _ Hid). lia. }
  repeat split; try done.
  intros Hr. unfold list_groups. rewrite S. cbn [map fst snd]. f_equal.
  f_equal. apply select_keywords_none. intros kid t L.
  specialize (Htop _ (Hr _ _ _ L)). lia.
Qed.

Lemma seq_monotone (op : registry_op) (db : Database) :
  groups_seq db <= groups_seq (run_op op db)
  /\ keywords_seq db <= keywords_seq (run_op op db).
Proof.
  destruct op as [g|gid|k|kid|]; cbn [run_op]; [| | | |split; reflexivity].
  - unfold create_group.
    destruct (next_rowid (groups db) (groups_seq db)) as [id|] eqn:N;
      cbn; [|lia].
    apply next_rowid_fresh in N as (_ & ? & _). lia.
  - unfold delete_group. destruct (fits_int64 gid); cbn; lia.
  - unfold create_keyword. destruct (fits_int64 (group_id k)); [|cbn; lia].
    destruct (groups db !! group_id k); [|cbn; lia].
    destruct (next_rowid (keywords db) (keywords_seq db)) as [id|] eqn:N;
      cbn; [|lia].
    apply next_rowid_fresh in N as (_ & ? & _). lia.
  - unfold delete_keyword. destruct (fits_int64 kid); cbn; lia.
Qed.

Lemma seq_monotone_ops (ops : list registry_op) (db : Database) :
  groups_seq db <= groups_seq (run_ops ops db)
  /\ keywords_seq db <= keywords_seq (run_ops ops db).
Proof.
  revert db. induction ops as [|op ops IH]; intros db; [cbn; lia|].
  unfold run_ops. cbn [foldl]. fold (run_ops ops (run_op op db)).
  destruct (seq_monotone op db), (IH (run_op op db)). lia.
Qed.

(** X16: ids are never handed out twice: whatever requests are served in
    between, deletions included, a group created later gets a larger id
    than a group created earlier, and so does a keyword. *)
Theorem ids_never_reused (ops : list registry_op) (db : Database) :
  (forall g1 g2 o1 o2 db1 db2,
     create_group g1 db = (Returned o1, db1) ->
     create_group g2 (run_ops ops db1) = (Returned o2, db2) ->
     out_id o1 < out_id o2)
  /\ (forall k1 k2 o1 o2 db1 db2,
     create_keyword k1 db = (Returned o1, db1) ->
     create_keyword k2 (run_ops ops db1) = (Returned o2, db2) ->
     out_kid o1 < out_kid o2).
Proof.
  split.
  - intros g1 g2 o1 o2 db1 db2 H1 H2. unfold create_group in H1, H2.
    destruct (next_rowid (groups db) _) as [id1|]; [|done].
    injection H1 as <- <-.
    destruct (next_rowid (groups (run_ops ops _)) _) as [id2|] eqn:N; [|done].
    injection H2 as <- _. apply next_rowid_fresh in N as (_ & Hs & _).
    match type of Hs with
    | groups_seq (run_ops ops ?d) < _ => destruct (seq_monotone_ops ops d) as [M _]
    end.
    cbn in *. lia.
  - intros k1 k2 o1 o2 db1 db2 H1 H2. unfold create_keyword in H1, H2.
    destruct (fits_int64 (group_id k1)); [|done].
    destruct (groups db !! group_id k1); [|done].
    destruct (next_rowid (keywords db) _) as [id1|]; [|done].
    injection H1 as <- <-.
    destruct (fits_int64 (group_id k2)); [|done].
    destruct (groups (run_ops ops _) !! group_id k2); [|done].
    destruct (next_rowid (keywords (run_ops ops _)) _) as [id2|] eqn:N; [|done].
    injection H2 as <- _. apply next_rowid_fresh in N as (_ & Hs & _).
    match type of Hs with
    | keywords_seq (run_ops ops ?d) < _ => destruct (seq_monotone_ops ops d) as [_ M]
    end.
    cbn in *. lia.
Qed.

Lemma keywords_of_insert (gid : Z) (db : Database) (kid g : Z) (t : string)
    (gs : gmap Z string) (s1 s2 : Z) :
  keywords db !! kid = None ->
  keywords_of gid (mkDatabase gs s1 (<[kid := (g, t)]> (keywords db)) s2)
  = if decide (g = gid) then <[kid := (g, t)]> (keywords_of gid db)
    else keywords_of gid db.
Proof.
  intros Hnone. unfold keywords_of; cbn [keywords].
  destruct (decide (g = gid)) as [->|Hne].
  - by apply map_filter_insert_True.
  - rewrite map_filter_insert_False by done. by rewrite delete_id.
Qed.

(** X17: [create_keyword] refuses a group that does not exist with a 404
    (an id beyond 64 bits with an [OverflowError]) and changes nothing; when
    it returns, the group exists, the response
    repeats the term as it was sent while the table stores it stripped,
    the groups are untouched, and the new keyword heads the keywords of
    its group and appears under no other group. *)
Theorem create_keyword_effect (k : KeywordIn) (db : Database) :
  (groups db !! group_id k = None ->
     create_keyword k db
     = (Failed (if fits_int64 (group_id k)
                then NotFound "Skupina neexistuje" else IntOverflow), db))
  /\ (forall out db',
        create_keyword k db = (Returned out, db') ->
        is_Some (groups db !! group_id k)
        /\ out_group_id out = group_id k /\ out_term out = term k
        /\ groups db' = groups db
        /\ keywords db' = <[out_kid out := (group_id k, strip (term k))]> (keywords db)
        /\ (forall kid, is_Some (keywords db !! kid) -> kid < out_kid out)
        /\ select_keywords (group_id k) db'
           = mkKeywordRow (out_kid out) (strip (term k))
               :: select_keywords (group_id k) db
        /\ (forall gid, gid <> group_id k ->
              select_keywords gid db' = select_keywords gid db)).
Proof.
  unfold create_keyword. split.
  - intros ->. by destruct (fits_int64 (group_id k)).
  - intros out db'. destruct (fits_int64 (group_id k)); [|done].
    destruct (groups db !! group_id k) as [n|] eqn:G; [|done].
    destruct (next_rowid (keywords db) (keywords_seq db)) as [kid|] eqn:N;
      [|done].
    intros [= <- <-]. cbn [out_kid out_group_id out_term groups keywords].
    destruct (next_rowid_fresh _ _ _ N) as (Hnone & _ & Htop).
    repeat split; try done.
    + unfold select_keywords. rewrite keywords_of_insert by done.
      rewrite decide_True by done.
      assert (Htop' : forall i, is_Some (keywords_of (group_id k) db !! i) -> i < kid).
      { intros i [x Hx]. apply map_lookup_filter_Some in Hx as [Hx _].
        apply Htop. by eexists. }
      rewrite (ids_desc_insert_top _ _ _ Htop').
      rewrite (rows_cons _ _ _ _ (group_id k, strip (term k)))
        by apply lookup_insert_eq.
      cbn [snd]. f_equal. apply rows_ext. intros id Hid.
      apply lookup_insert_ne. intros <-. apply ids_desc_elem in Hid.
      specialize (Htop' _ Hid). lia.
    + intros gid Hne. unfold select_keywords.
      rewrite keywords_of_insert by done. by rewrite decide_False.
Qed.

(** X18: the registry keeps its keywords attached: if every keyword
    belongs to an existing group, that is still so after any sequence of
    requests; in particular it holds in every database grown from an
    empty one, although SQLite is never asked to enforce the foreign key. *)
Theorem referential_preserved (ops : list registry_op) (db : Database) :
  referential db -> referential (run_ops ops db).
Proof.
  revert db. induction ops as [|op ops IH]; intros db H; [done|].
  unfold run_ops. cbn [foldl]. apply IH. clear IH ops.
  destruct op as [g|gid|k|kid|]; cbn [run_op]; [| | | |done].
  - unfold create_group. destruct (next_rowid _ _) as [id|]; [|done].
    intros kid g' t L. cbn in *. apply lookup_insert_is_Some'. right.
    by apply (H kid g' t).
  - unfold delete_group. destruct (fits_int64 gid); [|done].
    intros kid g' t L. cbn in *.
    apply map_lookup_filter_Some in L as [L Hne]. cbn in Hne.
    rewrite lookup_delete_ne by done. by apply (H kid g' t).
  - unfold create_keyword. destruct (fits_int64 (group_id k)); [|done].
    destruct (groups db !! group_id k) as [n|] eqn:G; [|done].
    destruct (next_rowid _ _) as [id|]; [|done].
    intros kid g' t L. cbn in *.
    destruct (decide (id = kid)) as [->|Hne].
    + rewrite lookup_insert_eq in L. injection L as <- <-. by eexists.
    + rewrite lookup_insert_ne in L by done. by apply (H kid g' t).
  - unfold delete_keyword. destruct (fits_int64 kid); [|done].
    intros kid' g' t L. cbn in *.
    apply lookup_delete_Some in L as [_ L]. by apply (H kid' g' t).
Qed.

Lemma referential_preserved_witness :
  referential
    (run_ops [CreateGroup (mkGroupIn "seo"); CreateKeyword (mkKeywordIn 1 "shoes");
              CreateKeyword (mkKeywordIn 9 "lost"); DeleteGroup 1]
             empty_database).
Proof.
  apply (referential_preserved _ empty_database).
  intros kid gid t L. unfold empty_database in L. cbn [keywords] in L.
  by rewrite lookup_empty in L.
Defined.

(** X19: for an id of 64 bits [delete_group] always answers [ok]; it
    removes the group and every keyword that carries its id, and nothing
    else: the other groups stay listed with the keywords they had. The id
    counters do not move, and deleting the same group again changes
    nothing more. *)
Theorem delete_group_effect (gid : Z) (db : Database) :
  fits_int64 gid = true ->
  let db' := snd (delete_group gid db) in
  fst (delete_group gid db) = Returned true
  /\ (forall g, g ∈ list_groups db' <-> g ∈ list_groups db /\ g_id g <> gid)
  /\ (forall kid g t, keywords db' !! kid = Some (g, t)
                      <-> keywords db !! kid = Some (g, t) /\ g <> gid)
  /\ groups_seq db' = groups_seq db /\ keywords_seq db' = keywords_seq db
  /\ delete_group gid db' = (Returned true, db').
Proof.
  intros Hfit db'. subst db'.
  assert (E : delete_group gid db =
              (Returned true,
               mkDatabase (delete gid (groups db)) (groups_seq db)
                 (filter (fun kv : Z * (Z * string) => fst (snd kv) <> gid)
                         (keywords db)) (keywords_seq db))).
  { unfold delete_group. by rewrite Hfit. }
  rewrite E. cbn [fst snd]. clear E.
  assert (K : forall kid g t,
            filter (fun kv : Z * (Z * string) => fst (snd kv) <> gid)
                   (keywords db) !! kid = Some (g, t)
            <-> keywords db !! kid = Some (g, t) /\ g <> gid).
  { intros kid g t. by rewrite map_lookup_filter_Some. }
  split; [done|]. split; [|split; [exact K|]].
  - intros g. rewrite !list_groups_elem. cbn [groups].
    rewrite lookup_delete_Some.
    assert (S : g_id g <> gid ->
                select_keywords (g_id g)
                  (mkDatabase (delete gid (groups db)) (groups_seq db)
                     (filter (fun kv : Z * (Z * string) => fst (snd kv) <> gid)
                             (keywords db)) (keywords_seq db))
                = select_keywords (g_id g) db).
    { intros Hne. unfold select_keywords.
      assert (E : keywords_of (g_id g)
                    (mkDatabase (delete gid (groups db)) (groups_seq db)
                       (filter (fun kv : Z * (Z * string) => fst (snd kv) <> gid)
                               (keywords db)) (keywords_seq db))
                  = keywords_of (g_id g) db).
      { unfold keywords_of; cbn [keywords]. apply map_eq. intros i.
        apply option_eq. intros [g' t].
        rewrite !map_lookup_filter_Some. cbn. intuition congruence. }
      by rewrite E. }
    split.
    + intros [[Hne L] Kw]. rewrite S in Kw by done. done.
    + intros [[L Kw] Hne]. rewrite S by done. done.
  - split; [done|]. split; [done|]. unfold delete_group. rewrite Hfit.
    cbn [groups keywords groups_seq keywords_seq]. f_equal. f_equal.
    + apply delete_id, lookup_delete_eq.
    + apply map_filter_id. intros i [g t] L.
      apply map_lookup_filter_Some in L as [_ L]. done.
Qed.

(** X20: deleting what is not there is no error and no change: for an
    id of 64 bits, [delete_keyword] on an unknown id answers [ok] and
    leaves the database as it is, and so does [delete_group] on an unknown
    id when every keyword belongs to an existing group. Without that,
    [delete_group] still removes the keywords that carry the id of the
    missing group. *)
Theorem delete_of_absent_rows (db : Database) :
  (forall kid, fits_int64 kid = true -> keywords db !! kid = None ->
     delete_keyword kid db = (Returned true, db))
  /\ (forall gid, fits_int64 gid = true -> groups db !! gid = None ->
        referential db -> delete_group gid db = (Returned true, db))
  /\ (forall gid kid t, fits_int64 gid = true ->
        keywords db !! kid = Some (gid, t) ->
        keywords (snd (delete_group gid db)) !! kid = None).
Proof.
  split; [|split].
  - intros kid Hfit L. unfold delete_keyword. rewrite Hfit, (delete_id _ _ L).
    by destruct db.
  - intros gid Hfit L Hr. unfold delete_group. rewrite Hfit, (delete_id _ _ L).
    rewrite map_filter_id; [by destruct db|].
    intros i [g t] Li. cbn. intros ->.
    destruct (Hr _ _ _ Li) as [n Hn]. congruence.
  - intros gid kid t Hfit L. unfold delete_group. rewrite Hfit. cbn.
    apply map_lookup_filter_None. right.
    intros x Lx. rewrite L in Lx. injection Lx as <-. cbn. tauto.
Qed.

(** ** The request gate *)

Lemma prefix_api (rest : string) : String.prefix "/api/" ("/api/" ++ rest) = true.
Proof. norm_append. cbn. by destruct rest. Qed.

(** X21: the gate lets a request to a path under [/api/] reach the
    handler exactly when its [X-API-Key] header is the configured key;
    otherwise it answers 401 and the handler does not run, so the state is
    left as it was. A path outside [/api/] always reaches the handler. *)
Theorem gate_guards_api (API_KEY : string) {S R : Type}
    (call_next : Request -> S -> R * S) (rest : string)
    (key : option string) (s : S) :
  let request := mkRequest ("/api/" ++ rest) key in
  (key <> Some API_KEY ->
     auth_middleware API_KEY call_next request s = (Unauthorized, s))
  /\ (key = Some API_KEY ->
     auth_middleware API_KEY call_next request s
     = (Passed (fst (call_next request s)), snd (call_next request s)))
  /\ (forall p, String.prefix "/api/" p = false ->
     auth_middleware API_KEY call_next (mkRequest p key) s
     = (Passed (fst (call_next (mkRequest p key) s)),
        snd (call_next (mkRequest p key) s))).
Proof.
  intros request. unfold auth_middleware. subst request. cbn [path x_api_key].
  rewrite prefix_api. cbn [andb]. split; [|split].
  - intros Hk. destruct key as [k|]; cbn; [|done].
    destruct (String.eqb_spec k API_KEY) as [->|]; [done | done].
  - intros ->. cbn. rewrite String.eqb_refl. cbn. by destruct (call_next _ s).
  - intros p ->. cbn. by destruct (call_next _ s).
Qed.

(** ** Instances *)

Lemma trending_result_capped_and_cached_witness :
  let w1 := snd (api_trending sample_provider "CZ" empty_world) in
  api_trending sample_provider "CZ" (elapse 1800 w1)
  = (Ok (VDict [("items", VList [VStr "news"])]), elapse 1800 w1).
Proof.
  intros w1.
  destruct (trending_result_capped_and_cached sample_provider "CZ"
              (VDict [("items", VList [VStr "news"])]) empty_world w1)
    as (l & E & _ & _ & H & _); [reflexivity | discriminate |].
  apply H; [|vm_compute; discriminate].
  intros ->. discriminate E.
Defined.

Lemma failures_are_not_cached_witness :
  let w := snd (cache_set "other" (VInt 1) None empty_world) in
  CACHE (snd (api_interest down_provider "a" "CZ" "3m" w)) ⊆ CACHE w.
Proof.
  intros w.
  destruct (failures_are_not_cached down_provider "a" "CZ" "3m"
              (HTTPException 502 (LibraryError "down")) w
              (snd (api_interest down_provider "a" "CZ" "3m" w)))
    as (_ & H & _).
  apply H. reflexivity.
Defined.


Lemma batch_requests_bounded_witness :
  calls (snd (api_batch_interest sample_provider
                (mkBatch "CZ" "3m" ["a"; "c"]) empty_world))
  = [InterestOverTime "a" "today 3-m" "CZ"; InterestOverTime "c" "today 3-m" "CZ"].
Proof.
  destruct (batch_requests_bounded sample_provider
              (mkBatch "CZ" "3m" ["a"; "c"]) "today 3-m" empty_world eq_refl)
    as [H _].
  exact H.
Defined.

Lemma create_group_effect_witness :
  list_groups (snd (create_group (mkGroupIn " seo ") empty_database))
  = [mkGroupRow 1 "seo" []].
Proof.
  destruct (create_group_effect (mkGroupIn " seo ") empty_database
              (snd (create_group (mkGroupIn " seo ") empty_database))
              (mkGroupOut 1 " seo ") eq_refl)
    as (_ & _ & _ & _ & _ & _ & H).
  apply H. intros kid gid t L. unfold empty_database in L. cbn [keywords] in L.
  by rewrite lookup_empty in L.
Defined.

Lemma ids_never_reused_witness :
  let db1 := snd (create_group (mkGroupIn "seo") empty_database) in
  out_id (mkGroupOut 1 "seo") < out_id (mkGroupOut 2 "ppc").
Proof.
  intros db1.
  destruct (ids_never_reused [DeleteGroup 1] empty_database) as [H _].
  apply (H (mkGroupIn "seo") (mkGroupIn "ppc") _ _ db1
           (snd (create_group (mkGroupIn "ppc") (run_ops [DeleteGroup 1] db1))));
    reflexivity.
Defined.

Lemma create_keyword_effect_witness :
  let db := snd (create_group (mkGroupIn "seo") empty_database) in
  create_keyword (mkKeywordIn 7 "x") db
  = (Failed (if fits_int64 7 then NotFound "Skupina neexistuje" else IntOverflow), db)
  /\ select_keywords 1 (snd (create_keyword (mkKeywordIn 1 " shoes ") db))
     = [mkKeywordRow 1 "shoes"].
Proof.
  intros db. split.
  - destruct (create_keyword_effect (mkKeywordIn 7 "x") db) as [H _].
    apply H. reflexivity.
  - destruct (create_keyword_effect (mkKeywordIn 1 " shoes ") db) as [_ H].
    destruct (H (mkKeywordOut 1 1 " shoes ")
                (snd (create_keyword (mkKeywordIn 1 " shoes ") db)) eq_refl)
      as (_ & _ & _ & _ & _ & _ & E & _).
    exact E.
Defined.

Lemma delete_of_absent_rows_witness :
  delete_keyword 5 empty_database = (Returned true, empty_database)
  /\ delete_group 5 empty_database = (Returned true, empty_database).
Proof.
  destruct (delete_of_absent_rows empty_database) as (K & G & _). split.
  - apply K; reflexivity.
  - apply G; [reflexivity | reflexivity |]. intros kid gid t L.
    unfold empty_database in L. cbn [keywords] in L.
    by rewrite lookup_empty in L.
Defined.

Lemma gate_guards_api_witness :
  auth_middleware "secret" (fun _ (n : nat) => (tt, S n))
                  (mkRequest "/api/trending" (Some "guess")) 0%nat
  = (Unauthorized, 0%nat).
Proof.
  destruct (gate_guards_api "secret" (fun _ (n : nat) => (tt, S n))
              "trending" (Some "guess") 0%nat) as [H _].
  apply H. discriminate.
Defined.

Lemma delete_group_effect_witness :
  let db := snd (create_keyword (mkKeywordIn 1 "shoes")
                   (snd (create_group (mkGroupIn "seo") empty_database))) in
  keywords (snd (delete_group 1 db)) !! 1 = None
  /\ delete_group 1 (snd (delete_group 1 db)) = (Returned true, snd (delete_group 1 db)).
Proof.
  intros db.
  destruct (delete_group_effect 1 db eq_refl) as (_ & _ & K & _ & _ & I).
  split; [|exact I].
  apply eq_None_not_Some. intros [[g t] L].
  apply K in L as [L Hne]. vm_compute in L. injection L as <- _. by apply Hne.
Defined.
